(** * Token contexts and the authentication client of ionic-cloud

    A shallow embedding of the authentication module: the token contexts
    ([AuthTokenContext], [CombinedAuthTokenContext]), the [Auth] service,
    the browser flow of [AuthType], its provider classes and [BasicAuth];
    and of [Cordova], which finds or injects [cordova.js].  The
    properties the specification states about them follow, then further
    properties of the code. *)

From Stdlib Require Import String Ascii List Bool Arith Lia.
From stdpp Require Import base option list strings gmap.

Local Open Scope string_scope.
Local Open Scope list_scope.
Import ListNotations.

(** ** Values

    A TypeScript expression of type [A] evaluates at run time to a value of
    [A], to [undefined] or to [null]. *)

Inductive js (A : Type) : Type :=
  | Undefined
  | Null
  | Val (a : A).

Arguments Undefined {A}.
Arguments Null {A}.
Arguments Val {A} a.

#[global] Instance js_eq_dec {A} `{EqDecision A} : EqDecision (js A).
Proof. solve_decision. Defined.

(** Truthiness: [undefined], [null], the empty string and [false] are falsy. *)
Class Truthy (A : Type) := truthy : A -> bool.

#[global] Instance string_truthy : Truthy string :=
  fun s => negb (String.eqb s "").

#[global] Instance bool_truthy : Truthy bool := fun b => b.

#[global] Instance js_truthy {A} `{Truthy A} : Truthy (js A) :=
  fun v => match v with Val a => truthy a | _ => false end.

(** [a || b] *)
Definition or_else {A} `{Truthy A} (a b : js A) : js A :=
  if truthy a then a else b.

(** What the specification calls "absent". *)
Definition absent {A} (v : js A) : Prop :=
  match v with Val _ => False | _ => True end.

(** A field is missing when it is [undefined], [null] or the empty
    string. *)
Definition missing (v : js string) : Prop :=
  v = Undefined \/ v = Null \/ v = Val "".

(** ** Storage backend *)

(** Modelled from the spec: [IStorage<string>] is declared in
    [./definitions] and implemented outside this file.  The specification
    gives [get(label) -> string|absent], [set(label, value)] and
    [delete(label)]; a backend is a finite map from labels to strings, and a
    label without a value reads as [null]. *)
Module IStorage.

Definition get (m : gmap string string) (key : string) : js string :=
  match m !! key with
  | Some v => Val v
  | None => Null
  end.

Definition set (m : gmap string string) (key value : string)
  : gmap string string :=
  <[key := value]> m.

Definition delete (m : gmap string string) (key : string)
  : gmap string string :=
  base.delete key m.

End IStorage.

(** ** AuthTokenContext *)

Module AuthTokenContext.

Record t := mk { storage : gmap string string; label : string }.

Definition get (this : t) : js string :=
  IStorage.get (storage this) (label this).

Definition store (this : t) (token : string) : t :=
  mk (IStorage.set (storage this) (label this) token) (label this).

Definition delete (this : t) : t :=
  mk (IStorage.delete (storage this) (label this)) (label this).

End AuthTokenContext.

(** ** CombinedAuthTokenContext *)

(** [ICombinedTokenContextStoreOptions]: [{permanent?: boolean}]. *)
Record ICombinedTokenContextStoreOptions := { permanent : js bool }.

Module CombinedAuthTokenContext.

(** [storage] is the durable tier, [tempStorage] the ephemeral one. *)
Record t := mk {
  storage : gmap string string;
  tempStorage : gmap string string;
  label : string
}.

Definition get (this : t) : js string :=
  let permToken := IStorage.get (storage this) (label this) in
  let tempToken := IStorage.get (tempStorage this) (label this) in
  let token := or_else tempToken permToken in
  token.

(** [options] is [None] when the caller leaves the argument out; the
    default is [{'permanent': true}]. *)
Definition store (this : t) (token : string)
    (options : option ICombinedTokenContextStoreOptions) : t :=
  let options := default {| permanent := Val true |} options in
  if truthy (permanent options) then
    mk (IStorage.set (storage this) (label this) token)
       (tempStorage this) (label this)
  else
    mk (storage this)
       (IStorage.set (tempStorage this) (label this) token) (label this).

Definition delete (this : t) : t :=
  let storage' := IStorage.delete (storage this) (label this) in
  let tempStorage' := IStorage.delete (tempStorage this) (label this) in
  mk storage' tempStorage' (label this).

(** A context over two empty backends. *)
Definition fresh (label : string) : t := mk ∅ ∅ label.

(** The reading of [get] in the specification: the ephemeral value if
    present, else the durable value, else absent. *)
Definition get_spec (this : t) : js string :=
  match tempStorage this !! label this with
  | Some tempToken => Val tempToken
  | None =>
      match storage this !! label this with
      | Some permToken => Val permToken
      | None => Null
      end
  end.

End CombinedAuthTokenContext.

Definition durable : option ICombinedTokenContextStoreOptions :=
  Some {| permanent := Val true |}.
Definition ephemeral : option ICombinedTokenContextStoreOptions :=
  Some {| permanent := Val false |}.

(** ** Replies of the HTTP client

    Modelled from the spec: the HTTP client and the shape of its replies
    are declared outside this file.  The specification places the token of
    a login at [body.data.token], the address of the browser flow at
    [body.data.url] and the errors of a signup at [body.error.details[]],
    each with [error_type] and [parameter].  A reply is kept as far as the
    code reads it; every object on these paths may be [undefined] or
    [null], and so may every entry of [details]. *)

Record ErrorDetail := { error_type : js string; parameter : js string }.

Record ErrorBody := { details : js (list (js ErrorDetail)) }.

Record DataBody := { token : js string; url : js string }.

Record Body := { data : js DataBody; error : js ErrorBody }.

Record Response := { body : js Body }.

(** The error the HTTP client hands to an [end] callback; [response] is the
    reply of the server, when there is one. *)
Record HttpError := { cause : string; response : js Response }.

#[global] Instance HttpError_truthy : Truthy HttpError := fun _ => true.

(** A request as the client sends it: method, path and the fields of the
    body. *)
Record Request := {
  method : string;
  path : string;
  payload : list (string * js string)
}.

(** Modelled from the spec: [IConfig] is declared in [./definitions]; the
    specification gives [get(key) -> value].  A key that is not set reads
    as [undefined]. *)
Module IConfig.

Definition get (settings : gmap string string) (key : string) : js string :=
  match settings !! key with
  | Some v => Val v
  | None => Undefined
  end.

End IConfig.

(** ** Errors, completions and promises *)

(** The errors of the module: [new Error(message)], the [TypeError] the
    runtime raises when a property of [undefined] or [null] is read, an
    error handed over by the HTTP client, and
    [new DetailedError<string[]>(message, details)]. *)
Inductive Error : Type :=
  | MkError (message : string)
  | TypeError
  | TransportError (err : HttpError)
  | DetailedError (message : string) (details : list string).

(** A call either returns or throws. *)
Inductive completion (A : Type) : Type :=
  | Return (a : A)
  | Throw (e : Error).

Arguments Return {A} a.
Arguments Throw {A} e.

#[global] Instance completion_ret : MRet completion := fun _ a => Return a.

#[global] Instance completion_bind : MBind completion :=
  fun _ _ k c =>
    match c with
    | Return a => k a
    | Throw e => Throw e
    end.

(** String concatenation turns its operands into strings. *)
Definition toString (v : js string) : string :=
  match v with
  | Undefined => "undefined"
  | Null => "null"
  | Val s => s
  end.

(** [x.f]: reading a property of [undefined] or [null] throws. *)
Definition prop {A B} (x : js A) (f : A -> B) : completion B :=
  match x with
  | Val a => Return (f a)
  | _ => Throw TypeError
  end.

Inductive promise (V : Type) : Type :=
  | Pending
  | Fulfilled (v : V)
  | Rejected (e : Error).

Arguments Pending {V}.
Arguments Fulfilled {V} v.
Arguments Rejected {V} e.

(** Modelled from the spec: [DeferredPromise] is defined in [./promise].
    The specification gives it one resolution and one rejection path,
    "settled exactly once": the first [resolve] or [reject] settles the
    promise and later ones leave it as it is. *)
Module DeferredPromise.

Definition resolve {V} (deferred : promise V) (v : V) : promise V :=
  match deferred with
  | Pending => Fulfilled v
  | _ => deferred
  end.

Definition reject {V} (deferred : promise V) (e : Error) : promise V :=
  match deferred with
  | Pending => Rejected e
  | _ => deferred
  end.

End DeferredPromise.

(** ** Auth *)

(** Modelled from the spec: [AuthModuleId] is declared in [./definitions];
    the specification lists the identifiers of the module registry. *)
Inductive AuthModuleId : Type :=
  | basic | custom | twitter | facebook | github | google | instagram
  | linkedin.

(** [LoginOptions]: [{remember?: boolean}]. *)
Record LoginOptions := { remember : js bool }.

(** The payload of an ['auth:token-changed'] event: [{'old': _, 'new': _}]. *)
Record TokenChanged := { old : js string; new : js string }.

Module Auth.
Section Service.

(** [Data] is what a caller hands to [login]; [IUser] is the user record
    of the user service. *)
Context {Data IUser : Type}.

(** [IAuthType]: [authenticate(data)] returns a promise (or throws); the
    promise is given by the state it settles to, [Pending] when it never
    settles. *)
Record IAuthType := { authenticate : Data -> completion (promise string) }.

(** [ISingleUserService]: what [load()] settles to, and [current()]. *)
Record ISingleUserService := {
  load : promise unit;
  current : IUser
}.

(** Calls that leave the service, in the order they are made. *)
Inductive effect : Type :=
  | Emit (event : string) (payload : TokenChanged)
  | Authenticate (moduleId : AuthModuleId) (data : Data)
  | UserLoad
  | UserCurrent
  | UserStore
  | UserUnstore
  | UserClear.

Record t := mk {
  authModules : AuthModuleId -> option IAuthType;
  tokenContext : CombinedAuthTokenContext.t;
  userService : ISingleUserService;
  authToken : js string;
  trace : list effect
}.

(** The constructor leaves [authToken] unset. *)
Definition constructor (authModules : AuthModuleId -> option IAuthType)
    (tokenContext : CombinedAuthTokenContext.t)
    (userService : ISingleUserService) : t :=
  mk authModules tokenContext userService Undefined [].

Definition perform (this : t) (es : list effect) : t :=
  mk (authModules this) (tokenContext this) (userService this)
     (authToken this) (trace this ++ es).

Definition isAuthenticated (this : t) : bool :=
  let token := CombinedAuthTokenContext.get (tokenContext this) in
  if truthy token then true else false.

Definition getToken (this : t) : js string :=
  CombinedAuthTokenContext.get (tokenContext this).

Definition storeToken (this : t) (options : option LoginOptions)
    (token : string) : t :=
  let options := default {| remember := Val true |} options in
  let originalToken := authToken this in
  let authToken' := Val token in
  let tokenContext' :=
    CombinedAuthTokenContext.store (tokenContext this) token
      (Some {| permanent := remember options |}) in
  mk (authModules this) tokenContext' (userService this) authToken'
     (trace this ++
      [Emit "auth:token-changed"
            {| old := originalToken; new := authToken' |}]).

Definition logout (this : t) : t :=
  let tokenContext' := CombinedAuthTokenContext.delete (tokenContext this) in
  mk (authModules this) tokenContext' (userService this) (authToken this)
     (trace this ++ [UserCurrent; UserUnstore; UserClear]).

(** [login] returns the state it leaves and either the error it throws
    or the promise it returns, the latter given by the state it settles
    to once the callbacks chained on it have run. *)
Definition login (this : t) (moduleId : AuthModuleId) (data : Data)
    (options : option LoginOptions) : t * completion (promise IUser) :=
  let options := default {| remember := Val true |} options in
  match authModules this moduleId with
  | None =>
      (this,
       Throw (MkError "Authentication class is invalid or missing:undefined"))
  | Some context =>
      let this := perform this [Authenticate moduleId data] in
      match authenticate context data with
      | Throw e => (this, Throw e)
      | Return Pending => (this, Return Pending)
      | Return (Rejected e) => (this, Return (Rejected e))
      | Return (Fulfilled token) =>
          let this := storeToken this (Some options) token in
          let this := perform this [UserLoad] in
          match load (userService this) with
          | Pending => (this, Return Pending)
          | Rejected e => (this, Return (Rejected e))
          | Fulfilled _ =>
              let user := current (userService this) in
              (perform this [UserCurrent; UserStore],
               Return (Fulfilled user))
          end
      end
  end.

(** The ['auth:token-changed'] payloads of a trace, oldest first. *)
Fixpoint tokenChanges (es : list effect) : list TokenChanged :=
  match es with
  | [] => []
  | Emit event payload :: es =>
      if String.eqb event "auth:token-changed"
      then payload :: tokenChanges es
      else tokenChanges es
  | _ :: es => tokenChanges es
  end.

End Service.

Arguments IAuthType : clear implicits.
Arguments ISingleUserService : clear implicits.
Arguments effect : clear implicits.
Arguments t : clear implicits.

(** The loop of [getDetailedErrorFromResponse] over [details], from the
    entry it has reached. *)
Fixpoint collectErrors (details : list (js ErrorDetail))
    (errors : list string) : completion (list string) :=
  match details with
  | [] => Return errors
  | detail :: details =>
      error_type ← prop detail error_type;
      if truthy error_type then
        parameter ← prop detail parameter;
        collectErrors details
          (errors ++ [toString error_type +:+ "_" +:+ toString parameter])
      else
        collectErrors details errors
  end.

(** The static method.  The [try] covers the read of
    [res.body.error.details] only; [details.length] is read after it. *)
Definition getDetailedErrorFromResponse (res : js Response)
  : completion Error :=
  let errors := [] in
  let details0 : js (list (js ErrorDetail)) := Val [] in
  let details1 :=
    match (res_body ← prop res body;
           res_body_error ← prop res_body error;
           prop res_body_error details) with
    | Return d => d
    | Throw e => details0
    end in
  entries ← prop details1 id;
  errors ← collectErrors entries errors;
  Return (DetailedError "Error creating user" errors).

End Auth.

(** ** Strings

    A string is the sequence of its bytes in UTF-8.  The separators and the
    prefix below are ASCII, so cutting at them and comparing the first 20
    bytes with the prefix gives what the code gets on UTF-16 units. *)

(** [s.split(sep)] for a separator of one character: the first piece and
    the pieces after it.  The result of [split] is never empty. *)
Fixpoint split (sep : ascii) (s : string) : string * list string :=
  match s with
  | EmptyString => (EmptyString, [])
  | String c s' =>
      let (piece, pieces) := split sep s' in
      if Ascii.eqb c sep then (EmptyString, piece :: pieces)
      else (String c piece, pieces)
  end.

(** [parts[0]] and [parts[1]] of the result of a [split]. *)
Definition at0 (parts : string * list string) : string := fst parts.

Definition at1 (parts : string * list string) : js string :=
  match snd parts with
  | [] => Undefined
  | piece :: _ => Val piece
  end.

(** [s.slice(0, n)] *)
Definition slice0 (n : nat) (s : string) : string := substring 0 n s.

(** ** AuthType: the browser flow

    [inAppBrowserFlow] from the callback it hands to [end] on: the surface
    it opens, the three listeners and what each does to the promise and to
    the surface. *)

Module AuthType.

(** Calls on [window.cordova.InAppBrowser] and on the surface [w] it
    opens. *)
Inductive BrowserCall : Type :=
  | Open (address : js string) (target features : string)
  | AddEventListener (event : string)
  | RemoveEventListener (event : string)
  | Close.

#[global] Instance BrowserCall_eq_dec : EqDecision BrowserCall.
Proof. solve_decision. Defined.

(** The state of a flow between two events: the promise
    [inAppBrowserFlow] has returned and the calls made so far. *)
Record Flow := mk {
  deferred : promise (js string);
  calls : list BrowserCall
}.

(** The callback handed to [end], lines 173 to 213. *)
Definition onEnd (deferred : promise (js string)) (err : js HttpError)
    (res : js Response) : completion Flow :=
  match err with
  | Val e =>
      Return (mk (DeferredPromise.reject deferred (TransportError e)) [])
  | _ =>
      res_body ← prop res body;
      res_body_data ← prop res_body data;
      address ← prop res_body_data url;
      Return (mk deferred
        [Open address "_blank"
              "location=no,clearcache=yes,clearsessioncache=yes";
         AddEventListener "exit";
         AddEventListener "loaderror";
         AddEventListener "loadstart"])
  end.

Definition onExit (flow : Flow) : Flow :=
  mk (DeferredPromise.reject (deferred flow) (MkError "InAppBrowser exit"))
     (calls flow).

Definition onLoadError (flow : Flow) : Flow :=
  mk (DeferredPromise.reject (deferred flow)
        (MkError "InAppBrowser loaderror"))
     (calls flow).

(** The loop over [paramParts]: [params[part[0]] = part[1]].  The object
    is kept as the map of the assignments; only ['token'] is read from it,
    which no other key can change. *)
Definition parseParams (paramParts : list string)
  : gmap string (js string) :=
  fold_left
    (fun params paramPart =>
       let part := split "=" paramPart in
       <[at0 part := at1 part]> params)
    paramParts ∅.

(** [params['token']] *)
Definition param (params : gmap string (js string)) (key : string)
  : js string :=
  default Undefined (params !! key).

(** The handler of ['loadstart'] for an event whose [url] is [address]:
    the state it leaves and whether it returns or throws. *)
Definition onLoadStart (flow : Flow) (address : string)
  : Flow * completion unit :=
  if String.eqb (slice0 20 address) "http://auth.ionic.io" then
    match at1 (split "?" (at0 (split "#" address))) with
    | Val queryString =>
        let paramParts := split "&" queryString in
        let params := parseParams (fst paramParts :: snd paramParts) in
        (mk (DeferredPromise.resolve (deferred flow) (param params "token"))
            (calls flow ++
             [RemoveEventListener "exit";
              RemoveEventListener "loaderror";
              Close]),
         Return tt)
    | _ => (flow, Throw TypeError)
    end
  else
    (mk (DeferredPromise.reject (deferred flow)
           (MkError "Unexpected url in API response"))
        (calls flow),
     Return tt).

(** How often a call occurs among the calls of a flow. *)
Definition occurrences (call : BrowserCall) (calls : list BrowserCall)
  : nat :=
  length (filter (fun c => c = call) calls).

End AuthType.

(** ** BasicAuth *)

(** [BasicLoginCredentials] *)
Record BasicLoginCredentials := { email : js string; password : js string }.

Module BasicAuth.

(** [config] holds the settings behind [this.config]. *)
Record t := mk { config : gmap string string }.

(** What a call leaves behind: the requests handed to the HTTP client and
    the promise it returns. *)
Record Started (V : Type) := started {
  requests : list Request;
  deferred : promise V
}.

Arguments started {V} requests deferred.
Arguments requests {V} s.
Arguments deferred {V} s.

Definition authenticate (this : t) (data : BasicLoginCredentials)
  : Started (js string) :=
  let deferred := Pending in
  if negb (truthy (email data)) || negb (truthy (password data)) then
    started []
      (DeferredPromise.reject deferred
         (MkError "email and password are required for basic authentication"))
  else
    started
      [{| method := "POST";
          path := "/auth/login";
          payload := [("app_id", IConfig.get (config this) "app_id");
                      ("email", email data);
                      ("password", password data)] |}]
      deferred.

(** The callback [authenticate] hands to [end]. *)
Definition authenticate_end (deferred : promise (js string))
    (err : js HttpError) (res : js Response)
  : completion (promise (js string)) :=
  match err with
  | Val e => Return (DeferredPromise.reject deferred (TransportError e))
  | _ =>
      res_body ← prop res body;
      res_body_data ← prop res_body data;
      res_body_data_token ← prop res_body_data token;
      Return (DeferredPromise.resolve deferred res_body_data_token)
  end.

(** The callback [signup] hands to [end], lines 264 to 270. *)
Definition signup_end (deferred : promise unit) (err : js HttpError)
    (res : js Response) : completion (promise unit) :=
  match err with
  | Val e =>
      detailed ← Auth.getDetailedErrorFromResponse (response e);
      Return (DeferredPromise.reject deferred detailed)
  | _ => Return (DeferredPromise.resolve deferred tt)
  end.

End BasicAuth.

(** ** Inputs used below *)

Module Inputs.

(** Durable "T1", then ephemeral "" under the same label. *)
Definition emptyEphemeral : CombinedAuthTokenContext.t :=
  CombinedAuthTokenContext.store
    (CombinedAuthTokenContext.store
       (CombinedAuthTokenContext.fresh "ionic_auth") "T1" durable)
    "" ephemeral.

(** Ephemeral "T2" under the label. *)
Definition sessionOnly : CombinedAuthTokenContext.t :=
  CombinedAuthTokenContext.store
    (CombinedAuthTokenContext.fresh "ionic_auth") "T2" ephemeral.

(** A registry with the basic module only; the module resolves with the
    token "abc". *)
Definition onlyBasic (moduleId : AuthModuleId)
  : option (Auth.IAuthType BasicLoginCredentials) :=
  match moduleId with
  | basic => Some {| Auth.authenticate := fun _ => Return (Fulfilled "abc") |}
  | _ => None
  end.

(** A service just constructed, over empty backends. *)
Definition service : Auth.t BasicLoginCredentials string :=
  Auth.constructor onlyBasic (CombinedAuthTokenContext.fresh "ionic_auth")
    {| Auth.load := Fulfilled tt; Auth.current := "user-1" |}.

Definition credentials : BasicLoginCredentials :=
  {| email := Val "a@b.com"; password := Val "p" |}.

(** The reply [{body: {data: {token: 'abc'}}}]. *)
Definition tokenReply : js Response :=
  Val {| body := Val {| data := Val {| token := Val "abc";
                                       url := Undefined |};
                        error := Undefined |} |}.

(** The reply [{body: {error: {details: [{error_type: 'required',
    parameter: 'email'}]}}}]. *)
Definition requiredEmail : js Response :=
  Val {| body := Val {| data := Undefined;
                        error := Val {| details :=
                          Val [Val {| error_type := Val "required";
                                      parameter := Val "email" |}] |} |} |}.

(** The reply [{body: {error: {}}}]: an error without [details]. *)
Definition errorWithoutDetails : js Response :=
  Val {| body := Val {| data := Undefined;
                        error := Val {| details := Undefined |} |} |}.

(** A flow whose surface has just been opened. *)
Definition opened : AuthType.Flow :=
  AuthType.mk Pending
    [AuthType.Open (Val "https://api.ionic.io/auth/twitter") "_blank"
       "location=no,clearcache=yes,clearsessioncache=yes";
     AuthType.AddEventListener "exit";
     AuthType.AddEventListener "loaderror";
     AuthType.AddEventListener "loadstart"].

End Inputs.

(** ** BasicAuth.signup: the request *)

(** [UserDetails]: [email], [password] and the optional [username],
    [image] and [name] are strings, [custom] is an object. *)
Module UserDetails.

Record t (Custom : Type) := mk {
  email : js string;
  password : js string;
  username : js string;
  image : js string;
  name : js string;
  custom : js Custom
}.

Arguments mk {Custom}.
Arguments email {Custom}.
Arguments password {Custom}.
Arguments username {Custom}.
Arguments image {Custom}.
Arguments name {Custom}.
Arguments custom {Custom}.

End UserDetails.

Module BasicAuthSignup.

Import UserDetails.

(** A value of [userData]: a string read from the details or the config,
    or the [custom] object. *)
Inductive UserField (Custom : Type) : Type :=
  | Text (value : js string)
  | Object (value : Custom).

Arguments Text {Custom}.
Arguments Object {Custom}.

(** The request [signup] hands to the HTTP client; [userData] lists the
    properties of the body in the order they are set. *)
Record UserRequest (Custom : Type) := request {
  method : string;
  path : string;
  userData : list (string * UserField Custom)
}.

Arguments request {Custom}.
Arguments method {Custom}.
Arguments path {Custom}.
Arguments userData {Custom}.

(** [if (data.f) { userData.f = data.f; }] for a string [f] *)
Definition optional {Custom} (key : string) (value : js string)
  : list (string * UserField Custom) :=
  if truthy value then [(key, Text value)] else [].

(** Lines 247 to 263; the objects of [custom] are truthy. *)
Definition signup {Custom} (this : BasicAuth.t) (data : UserDetails.t Custom)
  : list (UserRequest Custom) * promise unit :=
  let deferred := Pending in
  let userData :=
    [("app_id", Text (IConfig.get (BasicAuth.config this) "app_id"));
     ("email", Text (email data));
     ("password", Text (password data))] in
  let userData := userData ++ optional "username" (username data) in
  let userData := userData ++ optional "image" (image data) in
  let userData := userData ++ optional "name" (name data) in
  let userData :=
    userData ++
    match custom data with
    | Val o => [("custom", Object o)]
    | _ => []
    end in
  ([request "POST" "/users" userData], deferred).

(** [userData[key]] *)
Fixpoint field {Custom} (key : string)
    (userData : list (string * UserField Custom))
  : option (UserField Custom) :=
  match userData with
  | [] => None
  | (k, v) :: userData =>
      if String.eqb k key then Some v else field key userData
  end.

End BasicAuthSignup.

(** ** AuthType.inAppBrowserFlow: the request, the providers, the events *)

Module InAppBrowserFlow.

Import AuthType.

(** The options the flow reads. *)
Record Options := {
  uri_method : js string;
  provider : js string;
  callback_uri : js string
}.

(** [window]: [cordova] is [window.cordova], in it [InAppBrowser] is the
    plugin; [href] is [window.location.href]. *)
Record CordovaGlobal := { InAppBrowser : js unit }.

Record Window := { cordova : js CordovaGlobal; href : string }.

(** The request of the flow. *)
Record FlowRequest (Data : Type) := request {
  method : string;
  path : string;
  app_id : js string;
  callback : js string;
  data : Data
}.

Arguments request {Data}.
Arguments method {Data}.
Arguments path {Data}.
Arguments app_id {Data}.
Arguments callback {Data}.
Arguments data {Data}.

(** [!window || !window.cordova || !window.cordova.InAppBrowser] *)
Definition pluginMissing (window : js Window) : bool :=
  match window with
  | Val w =>
      match cordova w with
      | Val c =>
          match InAppBrowser c with
          | Val _ => false
          | _ => true
          end
      | _ => true
      end
  | _ => true
  end.

(** Lines 158 to 172 and 216: the requests handed to the HTTP client and
    the promise returned. *)
Definition inAppBrowserFlow {Data} (config : gmap string string)
    (window : js Window) (options : Options) (data : Data)
  : list (FlowRequest Data) * promise (js string) :=
  let deferred := Pending in
  match window with
  | Val w =>
      if pluginMissing window then
        ([], DeferredPromise.reject deferred
               (MkError "InAppBrowser plugin missing"))
      else
        let method :=
          if truthy (uri_method options) then toString (uri_method options)
          else "POST" in
        let provider :=
          if truthy (provider options)
          then "/" +:+ toString (provider options)
          else "" in
        ([request method ("/auth/login" +:+ provider)
            (IConfig.get config "app_id")
            (or_else (callback_uri options) (Val (href w)))
            data],
         deferred)
  | _ =>
      ([], DeferredPromise.reject deferred
             (MkError "InAppBrowser plugin missing"))
  end.

(** The provider classes: [CustomAuth], [TwitterAuth], [FacebookAuth],
    [GithubAuth], [GoogleAuth], [InstagramAuth] and [LinkedInAuth] call the
    flow with [{'provider': name}]. *)
Definition providerOptions (name : string) : Options :=
  {| uri_method := Undefined; provider := Val name;
     callback_uri := Undefined |}.

Definition CustomAuth {Data} config window (data : Data) :=
  inAppBrowserFlow config window (providerOptions "custom") data.

Definition TwitterAuth {Data} config window (data : Data) :=
  inAppBrowserFlow config window (providerOptions "twitter") data.

Definition FacebookAuth {Data} config window (data : Data) :=
  inAppBrowserFlow config window (providerOptions "facebook") data.

Definition GithubAuth {Data} config window (data : Data) :=
  inAppBrowserFlow config window (providerOptions "github") data.

Definition GoogleAuth {Data} config window (data : Data) :=
  inAppBrowserFlow config window (providerOptions "google") data.

Definition InstagramAuth {Data} config window (data : Data) :=
  inAppBrowserFlow config window (providerOptions "instagram") data.

Definition LinkedInAuth {Data} config window (data : Data) :=
  inAppBrowserFlow config window (providerOptions "linkedin") data.

(** Modelled from the spec: the surface [w] is an object of the
    InAppBrowser plugin.  The specification gives it [addEventListener] and
    [removeEventListener] for ['exit'], ['loaderror'] and ['loadstart']: an
    event reaches a handler from when it is added until it is removed. *)
Inductive BrowserEvent : Type :=
  | Exit
  | LoadError
  | LoadStart (address : string).

Definition eventName (event : BrowserEvent) : string :=
  match event with
  | Exit => "exit"
  | LoadError => "loaderror"
  | LoadStart _ => "loadstart"
  end.

(** Whether the handler of [event] is attached after [calls]. *)
Definition listening (event : string) (calls : list BrowserCall) : bool :=
  fold_left
    (fun attached call =>
       match call with
       | AddEventListener e => if String.eqb e event then true else attached
       | RemoveEventListener e =>
           if String.eqb e event then false else attached
       | _ => attached
       end)
    calls false.

(** The surface delivers [event]. *)
Definition dispatch (flow : Flow) (event : BrowserEvent)
  : Flow * completion unit :=
  if listening (eventName event) (calls flow) then
    match event with
    | Exit => (onExit flow, Return tt)
    | LoadError => (onLoadError flow, Return tt)
    | LoadStart address => onLoadStart flow address
    end
  else (flow, Return tt).

(** The surface delivers [events] one after the other; a handler that
    throws does not keep later events from being delivered. *)
Definition deliver (flow : Flow) (events : list BrowserEvent) : Flow :=
  fold_left (fun flow event => fst (dispatch flow event)) events flow.

(** A ['loadstart'] that [onLoadStart] takes for the redirect and can
    parse: the address starts with the prefix and has a query string. *)
Definition redirect (event : BrowserEvent) : bool :=
  match event with
  | LoadStart address =>
      String.eqb (slice0 20 address) "http://auth.ionic.io"
      && match at1 (split "?" (at0 (split "#" address))) with
         | Val _ => true
         | _ => false
         end
  | _ => false
  end.

End InAppBrowserFlow.

(** ** Cordova: finding and injecting [cordova.js] *)

Module Cordova.

(** A call of [logger.info]: with a message, or with a message and the
    error caught. *)
Inductive LogEntry : Type :=
  | Info (message : string)
  | InfoError (message : string) (e : Error).

(** The [script] elements of the document, each by its [src] attribute
    ([null] without one), those of [head] before those after it. *)
Record Document := {
  headScripts : list (js string);
  laterScripts : list (js string)
}.

(** [document.getElementsByTagName('script')] *)
Definition scripts (document : Document) : list (js string) :=
  headScripts document ++ laterScripts document.

(** What the page gives: whether the global [cordova] is defined,
    [window.location.href] and [window.location.search]. *)
Record Page := {
  cordova : bool;
  href : string;
  search : string
}.

(** The object and what it has written: [deviceType] is
    [this.device.deviceType], [logger] tells whether [this.logger] is set,
    [log] holds its entries and [document] the document. *)
Record t := mk {
  deviceType : string;
  logger : bool;
  log : list LogEntry;
  document : Document
}.

(** [if (this.logger) { this.logger.info(...); }] *)
Definition info (this : t) (entry : LogEntry) : t :=
  if logger this
  then mk (deviceType this) (logger this) (log this ++ [entry])
          (document this)
  else this.

(** [parts[parts.length - 1]] of the result of a [split]. *)
Definition lastPart (parts : string * list string) : string :=
  List.last (snd parts) (fst parts).

(** The loop of [isAvailable] over the scripts: whether one has a [src]
    whose last part is [cordova.js].  Reading [parts.length] does not
    throw, so the [catch] is never entered. *)
Fixpoint included (scripts : list (js string)) : bool :=
  match scripts with
  | [] => false
  | script :: scripts =>
      if truthy script
         && String.eqb (lastPart (split "/" (toString script))) "cordova.js"
      then true
      else included scripts
  end.

Definition isAvailable (this : t) (page : Page) : t * bool :=
  let this := info this (Info "Ionic Cordova: searching for cordova.js") in
  if cordova page then
    (info this (Info "Ionic Cordova: cordova.js has already been loaded"),
     true)
  else if included (scripts (document this)) then
    (info this
       (Info "Ionic Cordova: cordova.js has previously been included."),
     true)
  else (this, false).

(** *** The regular expression of [load]

    [/cordova_js_bootstrap_resource=(.*?)(&|#|$)/i].  A letter of the
    pattern matches itself and its capital; [.] matches every character
    but a line terminator (LF, CR, U+2028, U+2029). *)

Definition lower (c : ascii) : ascii :=
  let n := nat_of_ascii c in
  if Nat.leb 65 n && Nat.leb n 90 then ascii_of_nat (n + 32) else c.

(** What is left of [s] after the literal [pattern] at its start. *)
Fixpoint afterLiteral (pattern s : string) : option string :=
  match pattern, s with
  | EmptyString, _ => Some s
  | String p pattern, String c s =>
      if Ascii.eqb (lower c) p then afterLiteral pattern s else None
  | String _ _, EmptyString => None
  end.

Definition lineTerminator (s : string) : bool :=
  match s with
  | String "010"%char _ => true
  | String "013"%char _ => true
  | String "226"%char (String "128"%char (String "168"%char _)) => true
  | String "226"%char (String "128"%char (String "169"%char _)) => true
  | _ => false
  end.

(** [(.*?)(&|#|$)] at the start of [s]: the first group. *)
Fixpoint group1 (s : string) : option string :=
  match s with
  | EmptyString => Some EmptyString
  | String c s' =>
      if Ascii.eqb c "&" || Ascii.eqb c "#" then Some EmptyString
      else if lineTerminator s then None
      else option_map (String c) (group1 s')
  end.

(** [search.match(...)]: [resource[1]] of the leftmost match. *)
Fixpoint resource (search : string) : option string :=
  let here :=
    match afterLiteral "cordova_js_bootstrap_resource=" search with
    | Some rest => group1 rest
    | None => None
    end in
  match here with
  | Some found => Some found
  | None =>
      match search with
      | EmptyString => None
      | String _ search' => resource search'
      end
  end.

Section Load.

(** [decodeURI] of the language: the decoded string, or the error it
    throws. *)
Variable decodeURI : string -> completion string.

(** The [switch] of [load]: the [src] of the script and the object after
    the logging of the [catch]. *)
Definition source (this : t) (page : Page) : t * string :=
  let cordovaSrc := "cordova.js" in
  if String.eqb (deviceType this) "android" then
    if String.eqb (slice0 4 (href page)) "file"
    then (this, "file:///android_asset/www/cordova.js")
    else (this, cordovaSrc)
  else if String.eqb (deviceType this) "ipad"
          || String.eqb (deviceType this) "iphone" then
    match resource (search page) with
    | Some found =>
        match decodeURI found with
        | Return decoded => (this, decoded)
        | Throw e =>
            let this :=
              info this
                (Info ("Ionic Cordova: could not find "
                       +:+ "cordova_js_bootstrap_resource query param")) in
            (info this (InfoError "Ionic Cordova:" e), cordovaSrc)
        end
    | None => (this, cordovaSrc)
    end
  else (this, cordovaSrc).

Definition load (this : t) (page : Page) : t :=
  let (this, available) := isAvailable this page in
  if negb available then
    let (this, cordovaSrc) := source this page in
    let document' :=
      {| headScripts := headScripts (document this) ++ [Val cordovaSrc];
         laterScripts := laterScripts (document this) |} in
    let this :=
      mk (deviceType this) (logger this) (log this) document' in
    info this (Info "Ionic Cordova: injecting cordova.js")
  else this.

End Load.

(** *** bootstrap

    Modelled from the spec: [document] and its events are the browser's.
    A listener added with [addEventListener] is called, with the
    arguments of the event, at every later event of its name; the
    listeners of an event are those attached when it is dispatched. *)

Section Bootstrap.

(** The arguments an event hands to its listeners. *)
Context {Args : Type}.

(** The listeners the code adds: the one of [bootstrap] for
    ['deviceready'], and the one that one adds for [e] in [events]. *)
Inductive Listener : Type :=
  | OnDeviceReady
  | Forward (e : string).

Definition listens (listener : Listener) (event : string) : bool :=
  match listener with
  | OnDeviceReady => String.eqb event "deviceready"
  | Forward e => String.eqb event e
  end.

(** The listeners on [document], in the order they were added, and what
    the emitter was given, [{'args': args}] by its [args]. *)
Record Bridge := bridge {
  listeners : list Listener;
  emitted : list (string * Args)
}.

(** [let events = ['pause', 'resume']] *)
Definition events : list string := ["pause"; "resume"].

(** The body of a listener. *)
Definition call (this : Bridge) (listener : Listener) (args : Args)
  : Bridge :=
  match listener with
  | OnDeviceReady =>
      bridge (listeners this ++ map Forward events)
             (emitted this ++ [("cordova:deviceready", args)])
  | Forward e =>
      bridge (listeners this) (emitted this ++ [("cordova:" +:+ e, args)])
  end.

(** [document] dispatches [event] with [args]. *)
Definition fire (this : Bridge) (event : string) (args : Args) : Bridge :=
  fold_left
    (fun this listener =>
       if listens listener event then call this listener args else this)
    (listeners this) this.

(** [document] dispatches a sequence of events. *)
Definition fireAll (this : Bridge) (fired : list (string * Args)) : Bridge :=
  fold_left (fun this event => fire this (fst event) (snd event)) fired this.

(** [bootstrap]: the listener for ['deviceready'], then [load]. *)
Definition bootstrap (decodeURI : string -> completion string) (this : t)
    (page : Page) : t * Bridge :=
  (load decodeURI this page, bridge [OnDeviceReady] []).

End Bootstrap.

Arguments Bridge : clear implicits.

End Cordova.

(** ** Notions used in the statements *)

(** The code [getDetailedErrorFromResponse] makes of an entry of
    [details]: [detail.error_type + '_' + detail.parameter]. *)
Definition errorCode (detail : ErrorDetail) : string :=
  toString (error_type detail) +:+ "_" +:+ toString (parameter detail).

(** Whether the character [c] occurs in [s]. *)
Fixpoint contains (c : ascii) (s : string) : bool :=
  match s with
  | EmptyString => false
  | String c' s' => Ascii.eqb c' c || contains c s'
  end.

(** The calls of [onLoadStart] on the surface when it takes the address
    for the redirect. *)
Definition detached : list AuthType.BrowserCall :=
  [AuthType.RemoveEventListener "exit";
   AuthType.RemoveEventListener "loaderror";
   AuthType.Close].

(** Whether [s] has none of the characters that end the first group of
    the regular expression of [Cordova.load] or that [.] does not match:
    ['&'], ['#'], LF, CR, and the byte 226 with which U+2028 and U+2029
    start. *)
Fixpoint plain (s : string) : bool :=
  match s with
  | EmptyString => true
  | String c s' =>
      negb (Ascii.eqb c "&" || Ascii.eqb c "#" || Ascii.eqb c "010"
            || Ascii.eqb c "013" || Ascii.eqb c "226")
      && plain s'
  end.

(** What [Cordova.load] takes for the [src] of the script on a device
    that is neither an ipad nor an iphone. *)
Definition plainSource (this : Cordova.t) (page : Cordova.Page) : string :=
  if String.eqb (Cordova.deviceType this) "android"
     && String.eqb (slice0 4 (Cordova.href page)) "file"
  then "file:///android_asset/www/cordova.js"
  else "cordova.js".

(** The listeners on [document] after ['deviceready'] has been dispatched
    [k] times: the one of [Cordova.bootstrap], then [k] times those for
    ['pause'] and ['resume']. *)
Fixpoint forwards (k : nat) : list Cordova.Listener :=
  match k with
  | O => []
  | S k => forwards k ++ map Cordova.Forward Cordova.events
  end.

(** How often ['deviceready'] occurs among the events [fired]. *)
Definition readyCount {Args} (fired : list (string * Args)) : nat :=
  length (List.filter (fun event => String.eqb (fst event) "deviceready")
                      fired).

(** The state of [document] and of the emitter after [k] dispatches of
    ['deviceready']; nothing has been emitted when there was none. *)
Definition forwarding {Args} (k : nat) (this : Cordova.Bridge Args) : Prop :=
  Cordova.listeners this = Cordova.OnDeviceReady :: forwards k
  /\ (k = 0 -> Cordova.emitted this = []).

(** Further inputs. *)
Module MoreInputs.

(** A module whose promise is rejected, and a registry holding it. *)
Definition refusing (moduleId : AuthModuleId)
  : option (Auth.IAuthType BasicLoginCredentials) :=
  match moduleId with
  | basic =>
      Some {| Auth.authenticate :=
                fun _ => Return (Rejected (MkError "Invalid password")) |}
  | _ => None
  end.

Definition refused : Auth.t BasicLoginCredentials string :=
  Auth.constructor refusing (CombinedAuthTokenContext.fresh "ionic_auth")
    {| Auth.load := Fulfilled tt; Auth.current := "user-1" |}.

(** A service whose user service fails to load. *)
Definition loadFails : Auth.t BasicLoginCredentials string :=
  Auth.constructor Inputs.onlyBasic
    (CombinedAuthTokenContext.fresh "ionic_auth")
    {| Auth.load := Rejected (MkError "Network down");
       Auth.current := "user-1" |}.

(** A service over a context that holds a session token. *)
Definition inSession : Auth.t BasicLoginCredentials string :=
  Auth.constructor Inputs.onlyBasic Inputs.sessionOnly
    {| Auth.load := Fulfilled tt; Auth.current := "user-1" |}.

(** Two redirects around an ['exit']. *)
Definition twoRedirects : list InAppBrowserFlow.BrowserEvent :=
  [InAppBrowserFlow.LoadStart "http://auth.ionic.io/?token=a";
   InAppBrowserFlow.Exit;
   InAppBrowserFlow.LoadStart "http://auth.ionic.io/?token=b"].

(** A window with the plugin, on the page [http://localhost/]. *)
Definition withPlugin : InAppBrowserFlow.Window :=
  {| InAppBrowserFlow.cordova :=
       Val {| InAppBrowserFlow.InAppBrowser := Val tt |};
     InAppBrowserFlow.href := "http://localhost/" |}.

(** An android application without [cordova.js], opened from a file. *)
Definition androidApp : Cordova.t :=
  Cordova.mk "android" true []
    {| Cordova.headScripts := [Val "js/app.js"];
       Cordova.laterScripts := [] |}.

Definition filePage : Cordova.Page :=
  {| Cordova.cordova := false;
     Cordova.href := "file:///android_asset/www/index.html";
     Cordova.search := "" |}.

(** An ipad application and a page that names the resource. *)
Definition ipadApp : Cordova.t :=
  Cordova.mk "ipad" true []
    {| Cordova.headScripts := []; Cordova.laterScripts := [] |}.

Definition resourcePage : Cordova.Page :=
  {| Cordova.cordova := false;
     Cordova.href := "http://localhost/";
     Cordova.search := "?cordova_js_bootstrap_resource=lib/cordova.js&x=1" |}.

(** A [decodeURI] for addresses without escapes. *)
Definition unescaped (s : string) : completion string := Return s.

End MoreInputs.

(** * Properties *)

(** ** Values and storage *)

Lemma truthy_string_false (s : string) : truthy s = false <-> s = "".
Proof.
  unfold truthy, string_truthy. rewrite negb_false_iff. apply String.eqb_eq.
Qed.

Lemma truthy_string_true (s : string) : truthy s = true <-> s <> "".
Proof.
  unfold truthy, string_truthy. rewrite negb_true_iff. apply String.eqb_neq.
Qed.

Lemma truthy_js_string_true (v : js string) :
  truthy v = true <-> exists s, v = Val s /\ s <> "".
Proof.
  destruct v as [| |s]; cbn.
  - split; [discriminate | intros (s & [=] & _)].
  - split; [discriminate | intros (s & [=] & _)].
  - change (truthy s = true <-> (exists s0, Val s = Val s0 /\ s0 <> "")).
    rewrite truthy_string_true. split.
    + intros Hs. exists s. auto.
    + intros (s0 & [= <-] & Hs). exact Hs.
Qed.

Lemma or_else_falsy {A} `{Truthy A} (a b : js A) :
  truthy a = false -> or_else a b = b.
Proof. unfold or_else. intros ->. reflexivity. Qed.

Lemma or_else_truthy {A} `{Truthy A} (a b : js A) :
  truthy a = true -> or_else a b = a.
Proof. unfold or_else. intros ->. reflexivity. Qed.

Lemma IStorage_get_set (m : gmap string string) (key value : string) :
  IStorage.get (IStorage.set m key value) key = Val value.
Proof. unfold IStorage.get, IStorage.set. by rewrite lookup_insert_eq. Qed.

Lemma IStorage_get_delete (m : gmap string string) (key : string) :
  IStorage.get (IStorage.delete m key) key = Null.
Proof. unfold IStorage.get, IStorage.delete. by rewrite lookup_delete_eq. Qed.

(** ** CombinedAuthTokenContext *)


Section CombinedContext.

Import CombinedAuthTokenContext Inputs.

Lemma get_unfold (this : t) :
  get this =
  or_else (IStorage.get (tempStorage this) (label this))
          (IStorage.get (storage this) (label this)).
Proof. reflexivity. Qed.

Lemma store_durable (this : t) (token : string) :
  store this token durable =
  mk (IStorage.set (storage this) (label this) token)
     (tempStorage this) (label this).
Proof. reflexivity. Qed.

Lemma store_ephemeral (this : t) (token : string) :
  store this token ephemeral =
  mk (storage this)
     (IStorage.set (tempStorage this) (label this) token) (label this).
Proof. reflexivity. Qed.

(** C5, as stated, fails: the ephemeral tier holds a value, the empty
    string, and [get] returns the durable one. *)
Lemma get_ephemeral_first_counterexample :
  tempStorage emptyEphemeral !! label emptyEphemeral = Some ""
  /\ get emptyEphemeral = Val "T1"
  /\ get emptyEphemeral <> get_spec emptyEphemeral.
Proof. vm_compute. repeat split. discriminate. Qed.

(** C5, amended: [get] returns the value of the ephemeral tier when there
    is one and it is not the empty string, else the value of the durable
    tier when there is one, else [null]; after durable T1 and then a
    non-empty ephemeral T2 under the same label, [get] returns T2. *)
Theorem get_prefers_nonempty_ephemeral (this : t) (T1 T2 : string) :
  get this =
    match tempStorage this !! label this with
    | Some tempToken =>
        if String.eqb tempToken "" then
          match storage this !! label this with
          | Some permToken => Val permToken
          | None => Null
          end
        else Val tempToken
    | None =>
        match storage this !! label this with
        | Some permToken => Val permToken
        | None => Null
        end
    end
  /\ (T2 <> "" -> get (store (store this T1 durable) T2 ephemeral) = Val T2).
Proof.
  split.
  - rewrite get_unfold. unfold IStorage.get, or_else.
    destruct (tempStorage this !! label this) as [tempToken|]; [|reflexivity].
    cbn. unfold truthy, string_truthy.
    destruct (String.eqb tempToken ""); reflexivity.
  - intros HT2. rewrite get_unfold, store_ephemeral. cbn [tempStorage label].
    rewrite IStorage_get_set.
    apply or_else_truthy. by apply truthy_string_true.
Qed.

Lemma get_prefers_nonempty_ephemeral_witness :
  get (store (store (fresh "ionic_auth") "T1" durable) "T2" ephemeral)
  = Val "T2".
Proof.
  apply (proj2 (get_prefers_nonempty_ephemeral (fresh "ionic_auth") "T1" "T2")).
  discriminate.
Defined.


(** C6, as stated, fails: with an ephemeral token under the label, a
    durable [store] of "T1" is followed by a [get] that returns the
    ephemeral token. *)
Lemma store_durable_get_counterexample :
  get (store sessionOnly "T1" durable) = Val "T2"
  /\ get (store sessionOnly "T1" durable) <> Val "T1".
Proof. vm_compute. split; [reflexivity | discriminate]. Qed.

Lemma delete_unfold (this : t) :
  delete this =
  mk (IStorage.delete (storage this) (label this))
     (IStorage.delete (tempStorage this) (label this)) (label this).
Proof. reflexivity. Qed.

Lemma get_delete (this : t) : get (delete this) = Null.
Proof.
  rewrite get_unfold, delete_unfold. cbn [tempStorage storage label].
  by rewrite !IStorage_get_delete.
Qed.

Lemma get_store_empty_fresh (name : string)
    (options : option ICombinedTokenContextStoreOptions) :
  truthy (get (store (fresh name) "" options)) = false.
Proof.
  unfold store.
  destruct (truthy (permanent _)); rewrite get_unfold;
    cbn [tempStorage storage label fresh]; rewrite IStorage_get_set;
    unfold IStorage.get; rewrite lookup_empty; reflexivity.
Qed.

(** C6, amended: for every context (so every label) and token T, a
    durable [store] of T is followed by a [get] that returns T when the
    ephemeral tier holds no value or the empty string under the label;
    [delete] removes the label from both tiers whatever they hold, the
    [get] after it returns [null], a second [delete] changes nothing, and
    neither does a [delete] when no tier holds the label. *)
Theorem store_durable_get_delete (this : t) (T : string) :
  (tempStorage this !! label this = None
   \/ tempStorage this !! label this = Some "" ->
   get (store this T durable) = Val T)
  /\ storage (delete this) !! label this = None
  /\ tempStorage (delete this) !! label this = None
  /\ label (delete this) = label this
  /\ get (delete this) = Null
  /\ delete (delete this) = delete this
  /\ (storage this !! label this = None ->
      tempStorage this !! label this = None ->
      delete this = this).
Proof.
  repeat split.
  - intros Hfalsy. rewrite get_unfold, store_durable.
    cbn [tempStorage storage label].
    rewrite or_else_falsy; [apply IStorage_get_set|].
    unfold IStorage.get. by destruct Hfalsy as [-> | ->].
  - apply lookup_delete_eq.
  - apply lookup_delete_eq.
  - apply get_delete.
  - rewrite !delete_unfold. cbn [tempStorage storage label].
    unfold IStorage.delete. f_equal; apply delete_id, lookup_delete_eq.
  - intros Hperm Htemp. rewrite delete_unfold. unfold IStorage.delete.
    rewrite (delete_id _ _ Hperm), (delete_id _ _ Htemp).
    by destruct this.
Qed.

Lemma store_durable_get_delete_witness :
  get (store (fresh "ionic_auth") "T1" durable) = Val "T1"
  /\ delete (fresh "ionic_auth") = fresh "ionic_auth".
Proof.
  pose proof (store_durable_get_delete (fresh "ionic_auth") "T1")
    as (Hget & _ & _ & _ & _ & _ & Hdel).
  split.
  - apply Hget. left. reflexivity.
  - apply Hdel; reflexivity.
Defined.

(** C7: [store] writes one tier.  With [permanent] true (and when the
    options are left out) the durable tier gets the token under the label
    and the ephemeral tier stays as it is; with [permanent] false the
    ephemeral tier gets it and the durable tier stays as it is. *)
Theorem store_writes_one_tier (this : t) (token : string) :
  store this token (Some {| permanent := Val true |}) =
    mk (<[label this := token]> (storage this)) (tempStorage this)
       (label this)
  /\ store this token None =
    mk (<[label this := token]> (storage this)) (tempStorage this)
       (label this)
  /\ store this token (Some {| permanent := Val false |}) =
    mk (storage this) (<[label this := token]> (tempStorage this))
       (label this).
Proof. repeat split. Qed.

End CombinedContext.

(** ** Auth *)

Section AuthService.

Context {Data IUser : Type}.

Import Auth.

Lemma tokenChanges_app (es1 es2 : list (effect Data)) :
  tokenChanges (es1 ++ es2) = tokenChanges es1 ++ tokenChanges es2.
Proof.
  induction es1 as [|e es1 IH]; [reflexivity|].
  destruct e; cbn; try exact IH.
  destruct (String.eqb event "auth:token-changed"); cbn; by rewrite IH.
Qed.

Lemma perform_perform (this : Auth.t Data IUser)
    (es1 es2 : list (effect Data)) :
  perform (perform this es1) es2 = perform this (es1 ++ es2).
Proof. unfold perform. cbn. by rewrite app_assoc. Qed.

Lemma storeToken_trace (this : Auth.t Data IUser)
    (options : option LoginOptions) (token : string) :
  trace (storeToken this options token) =
  trace this ++
  [Emit "auth:token-changed" {| old := authToken this; new := Val token |}].
Proof. reflexivity. Qed.

Lemma storeToken_authToken (this : Auth.t Data IUser)
    (options : option LoginOptions) (token : string) :
  authToken (storeToken this options token) = Val token.
Proof. reflexivity. Qed.

(** C2: [storeToken] makes the token the cached one, stores it in the
    token context with [permanent] set to [options.remember], and emits
    one ['auth:token-changed'] event whose [old] is the token cached
    before, [undefined] on a service just constructed, and whose [new] is
    the token; a [login] whose module resolves with a token goes through
    [storeToken] and adds exactly that one event. *)
Theorem storeToken_records_and_emits (this : Auth.t Data IUser)
    (options : option LoginOptions) (token : string) :
  let options' := default {| remember := Val true |} options in
  authToken (storeToken this options token) = Val token
  /\ tokenContext (storeToken this options token) =
       CombinedAuthTokenContext.store (tokenContext this) token
         (Some {| permanent := remember options' |})
  /\ trace (storeToken this options token) =
       trace this ++
       [Emit "auth:token-changed"
             {| old := authToken this; new := Val token |}]
  /\ (forall authModules tokenContext
             (userService : ISingleUserService IUser),
        tokenChanges
          (trace (storeToken
                    (constructor (Data := Data) authModules tokenContext
                                 userService)
                    options token))
        = [{| old := Undefined; new := Val token |}])
  /\ (forall moduleId data context,
        authModules this moduleId = Some context ->
        authenticate context data = Return (Fulfilled token) ->
        exists after,
          fst (login this moduleId data options) =
            perform
              (storeToken (perform this [Authenticate moduleId data])
                          (Some options') token)
              after
          /\ tokenChanges after = []
          /\ tokenChanges (trace (fst (login this moduleId data options))) =
               tokenChanges (trace this) ++
               [{| old := authToken this; new := Val token |}]).
Proof.
  intros options'. repeat split.
  intros moduleId data context Hmodule Hauth.
  unfold login. rewrite Hmodule, Hauth. fold options'.
  set (stored := storeToken (perform this [Authenticate moduleId data])
                            (Some options') token).
  assert (Hstored : tokenChanges (trace stored) =
                    tokenChanges (trace this) ++
                    [{| old := authToken this; new := Val token |}]).
  { subst stored. rewrite storeToken_trace. cbn [perform trace authToken].
    rewrite !tokenChanges_app. cbn. by rewrite app_nil_r. }
  destruct (load (userService (perform stored [UserLoad]))) eqn:Hload.
  - exists [UserLoad]. repeat split.
    cbn [fst perform trace]. rewrite tokenChanges_app, Hstored. cbn.
    by rewrite app_nil_r.
  - exists [UserLoad; UserCurrent; UserStore]. split.
    + cbn [fst]. apply perform_perform.
    + split; [reflexivity|].
      cbn [fst perform trace]. rewrite !tokenChanges_app, Hstored. cbn.
      by rewrite !app_nil_r.
  - exists [UserLoad]. repeat split.
    cbn [fst perform trace]. rewrite tokenChanges_app, Hstored. cbn.
    by rewrite app_nil_r.
Qed.

Lemma isAuthenticated_unfold (this : Auth.t Data IUser) :
  isAuthenticated this =
  truthy (CombinedAuthTokenContext.get (tokenContext this)).
Proof. unfold isAuthenticated. by destruct (truthy _). Qed.

(** C9: [isAuthenticated] is true exactly when [tokenContext.get()] gives
    a string that is not empty; it is false when [get] gives the empty
    string, in particular after an empty token is stored on a service over
    empty backends, and after [logout]; it depends on the token context
    alone. *)
Theorem isAuthenticated_iff_nonempty_token (this : Auth.t Data IUser) :
  (isAuthenticated this = true <->
   exists token,
     CombinedAuthTokenContext.get (tokenContext this) = Val token
     /\ token <> "")
  /\ (CombinedAuthTokenContext.get (tokenContext this) = Val "" ->
      isAuthenticated this = false)
  /\ (forall label options,
        tokenContext this = CombinedAuthTokenContext.fresh label ->
        isAuthenticated (storeToken this options "") = false)
  /\ isAuthenticated (logout this) = false
  /\ (forall other : Auth.t Data IUser,
        tokenContext other = tokenContext this ->
        isAuthenticated other = isAuthenticated this).
Proof.
  repeat split.
  - rewrite isAuthenticated_unfold. apply truthy_js_string_true.
  - rewrite isAuthenticated_unfold. apply truthy_js_string_true.
  - rewrite isAuthenticated_unfold. by intros ->.
  - intros label options Hfresh. rewrite isAuthenticated_unfold.
    unfold storeToken. cbn [tokenContext]. rewrite Hfresh.
    apply get_store_empty_fresh.
  - rewrite isAuthenticated_unfold. cbn [logout tokenContext].
    by rewrite get_delete.
  - intros other Hsame. by rewrite !isAuthenticated_unfold, Hsame.
Qed.

Lemma logout_unfold (this : Auth.t Data IUser) :
  logout this =
  mk (authModules this) (CombinedAuthTokenContext.delete (tokenContext this))
     (userService this) (authToken this)
     (trace this ++ [UserCurrent; UserUnstore; UserClear]).
Proof. reflexivity. Qed.

(** C10: [logout] deletes the token from the token context and clears the
    user record but keeps [authToken]; when T1 is stored, then [logout] is
    called, then T2 is stored, the event emitted for T2 has [old] = T1. *)
Theorem logout_keeps_cached_token (this : Auth.t Data IUser)
    (options1 options2 : option LoginOptions) (T1 T2 : string) :
  authToken (logout this) = authToken this
  /\ tokenContext (logout this) =
       CombinedAuthTokenContext.delete (tokenContext this)
  /\ trace (logout this) = trace this ++ [UserCurrent; UserUnstore; UserClear]
  /\ trace (storeToken (logout (storeToken this options1 T1)) options2 T2) =
       trace (logout (storeToken this options1 T1)) ++
       [Emit "auth:token-changed" {| old := Val T1; new := Val T2 |}]
  /\ last (tokenChanges
             (trace (storeToken (logout (storeToken this options1 T1))
                                options2 T2)))
     = Some {| old := Val T1; new := Val T2 |}.
Proof.
  repeat split.
  rewrite storeToken_trace, tokenChanges_app. cbn [tokenChanges].
  cbn. apply last_snoc.
Qed.

(** C3: when the registry has no module under [moduleId], [login] throws;
    it returns no promise, calls no module and leaves the service as it
    was. *)
Theorem login_unregistered_throws (this : Auth.t Data IUser)
    (moduleId : AuthModuleId) (data : Data) (options : option LoginOptions) :
  authModules this moduleId = None ->
  login this moduleId data options =
  (this,
   Throw (MkError "Authentication class is invalid or missing:undefined")).
Proof. intros Hmissing. unfold login. by rewrite Hmissing. Qed.

End AuthService.

Section AuthServiceWitnesses.

Import Auth Inputs.

Lemma storeToken_records_and_emits_witness :
  tokenChanges (trace (fst (login service basic credentials None))) =
  [{| old := Undefined; new := Val "abc" |}].
Proof.
  destruct (storeToken_records_and_emits service None "abc")
    as (_ & _ & _ & _ & Hlogin).
  destruct (Hlogin basic credentials _ eq_refl eq_refl)
    as (after & _ & _ & Hchanges).
  exact Hchanges.
Defined.

Lemma isAuthenticated_iff_nonempty_token_witness :
  isAuthenticated (storeToken service None "") = false.
Proof.
  destruct (isAuthenticated_iff_nonempty_token service)
    as (_ & _ & Hempty & _).
  apply (Hempty "ionic_auth"). reflexivity.
Defined.

Lemma login_unregistered_throws_witness :
  login service twitter credentials None =
  (service,
   Throw (MkError "Authentication class is invalid or missing:undefined")).
Proof. apply login_unregistered_throws. reflexivity. Defined.

End AuthServiceWitnesses.

(** ** BasicAuth *)

Section Basic.

Import BasicAuth Inputs.

Lemma truthy_missing (v : js string) : truthy v = false <-> missing v.
Proof.
  unfold missing. destruct v as [| |s]; cbn.
  - intuition congruence.
  - intuition congruence.
  - change (truthy s = false <->
            Val s = Undefined \/ Val s = Null \/ Val s = Val "").
    rewrite truthy_string_false.
    split; [intros ->; auto | intros [[=]|[[=]|[=]]]; done].
Qed.

(** C4: when [data.email] or [data.password] is missing, the empty string
    included, [authenticate] hands no request to the HTTP client and the
    promise it returns is rejected with the validation error; when both
    are there, it posts the app id, the email and the password to
    [/auth/login], and the promise is rejected with the error of the
    client when there is one and resolved with [res.body.data.token] of
    the reply otherwise. *)
Theorem authenticate_validates_then_posts (this : t)
    (login : BasicLoginCredentials) :
  (missing (email login) \/ missing (password login) ->
   authenticate this login =
   started []
     (Rejected
        (MkError "email and password are required for basic authentication")))
  /\ (~ missing (email login) -> ~ missing (password login) ->
      authenticate this login =
      started
        [{| method := "POST";
            path := "/auth/login";
            payload := [("app_id", IConfig.get (config this) "app_id");
                        ("email", email login);
                        ("password", password login)] |}]
        Pending
      /\ (forall e res,
            authenticate_end (deferred (authenticate this login)) (Val e) res
            = Return (Rejected (TransportError e)))
      /\ (forall err res_body res_body_data,
            absent err ->
            data res_body = Val res_body_data ->
            authenticate_end (deferred (authenticate this login)) err
              (Val {| body := Val res_body |})
            = Return (Fulfilled (token res_body_data)))).
Proof.
  split.
  - intros Hmissing. unfold authenticate.
    assert (negb (truthy (email login)) || negb (truthy (password login))
            = true) as ->; [|reflexivity].
    apply orb_true_iff.
    destruct Hmissing as [H|H]; apply truthy_missing in H; rewrite H; auto.
  - intros Hemail Hpassword.
    assert (authenticate this login =
            started
              [{| method := "POST";
                  path := "/auth/login";
                  payload := [("app_id", IConfig.get (config this) "app_id");
                              ("email", email login);
                              ("password", password login)] |}]
              Pending) as Hposted.
    { unfold authenticate.
      destruct (truthy (email login)) eqn:He;
        [|by apply truthy_missing in He].
      destruct (truthy (password login)) eqn:Hp;
        [|by apply truthy_missing in Hp].
      reflexivity. }
    rewrite Hposted. repeat split.
    intros err res_body res_body_data Habsent Hdata.
    destruct err; [| |done]; cbn; rewrite Hdata; reflexivity.
Qed.

Lemma authenticate_validates_then_posts_witness :
  authenticate (mk ∅) {| email := Val ""; password := Val "x" |} =
  started []
    (Rejected
       (MkError "email and password are required for basic authentication"))
  /\ authenticate_end (deferred (authenticate (mk ∅) credentials)) Null
       tokenReply
     = Return (Fulfilled (Val "abc")).
Proof.
  split.
  - apply authenticate_validates_then_posts. left. right. right. reflexivity.
  - destruct (authenticate_validates_then_posts (mk ∅) credentials)
      as (_ & Hposts).
    destruct Hposts as (_ & _ & Hreply).
    + intros [[=]|[[=]|[=]]].
    + intros [[=]|[[=]|[=]]].
    + apply (Hreply Null _ {| token := Val "abc"; url := Undefined |});
        [exact I | reflexivity].
Defined.

End Basic.

(** ** getDetailedErrorFromResponse *)

Section DetailedErrors.

Import Auth BasicAuth Inputs.

(** The well-formed reply of the specification gives the code
    ['required_email']. *)
Lemma getDetailedErrorFromResponse_required_email :
  getDetailedErrorFromResponse requiredEmail =
  Return (DetailedError "Error creating user" ["required_email"]).
Proof. reflexivity. Qed.

(** When the reply, its body or the error of the body is not there, the
    read inside the [try] throws and the list of codes is empty. *)
Lemma getDetailedErrorFromResponse_caught (res : js Response) :
  (forall res_body_error,
     (res_body ← prop res body; prop res_body error) <>
     Return (Val res_body_error)) ->
  getDetailedErrorFromResponse res =
  Return (DetailedError "Error creating user" []).
Proof.
  intros Hcaught. unfold getDetailedErrorFromResponse.
  destruct res as [| |[[| |[res_data res_error]]]]; try reflexivity.
  destruct res_error as [| |res_body_error]; try reflexivity.
  by destruct (Hcaught res_body_error).
Qed.

(** C8, at a reply whose error has no [details]: the read inside the [try]
    gives [undefined] without throwing, and reading [details.length] after
    the [try] throws a [TypeError]; no structured error is returned. *)
Theorem getDetailedErrorFromResponse_without_details_throws :
  getDetailedErrorFromResponse errorWithoutDetails = Throw TypeError.
Proof. reflexivity. Qed.

(** The callback of [signup] then throws as well and leaves the promise
    pending. *)
Lemma signup_end_without_details_throws (err : HttpError)
    (res : js Response) :
  response err = errorWithoutDetails ->
  signup_end Pending (Val err) res = Throw TypeError.
Proof. intros Hresponse. unfold signup_end. by rewrite Hresponse. Qed.

(** An entry of [details] that is [undefined] or [null] throws too. *)
Lemma collectErrors_null_entry (details : list (js ErrorDetail))
    (errors : list string) :
  collectErrors (Null :: details) errors = Throw TypeError.
Proof. reflexivity. Qed.

End DetailedErrors.

(** ** The browser flow *)

Section BrowserFlow.

Import AuthType Inputs.

Lemma occurrences_app (call : BrowserCall)
    (calls1 calls2 : list BrowserCall) :
  occurrences call (calls1 ++ calls2) =
  occurrences call calls1 + occurrences call calls2.
Proof. unfold occurrences. by rewrite filter_app, length_app. Qed.

(** A ['loadstart'] whose address does not start with the expected prefix
    rejects with ['Unexpected url in API response'] and makes no call on
    the surface. *)
Lemma onLoadStart_unexpected (flow : Flow) (address : string) :
  slice0 20 address <> "http://auth.ionic.io" ->
  onLoadStart flow address =
  (mk (DeferredPromise.reject (deferred flow)
         (MkError "Unexpected url in API response"))
      (calls flow),
   Return tt).
Proof.
  intros Hprefix. unfold onLoadStart.
  by destruct (String.eqb_spec (slice0 20 address) "http://auth.ionic.io").
Qed.

(** A ['loadstart'] whose address starts with the prefix and has a query
    string detaches the two listeners once each, closes the surface once
    and resolves with [params['token']]. *)
Lemma onLoadStart_redirect (flow : Flow) (address queryString : string) :
  slice0 20 address = "http://auth.ionic.io" ->
  at1 (split "?" (at0 (split "#" address))) = Val queryString ->
  let paramParts := split "&" queryString in
  let params := parseParams (fst paramParts :: snd paramParts) in
  let after := fst (onLoadStart flow address) in
  snd (onLoadStart flow address) = Return tt
  /\ deferred after =
       DeferredPromise.resolve (deferred flow) (param params "token")
  /\ calls after =
       calls flow ++
       [RemoveEventListener "exit"; RemoveEventListener "loaderror"; Close]
  /\ occurrences Close (calls after) = S (occurrences Close (calls flow))
  /\ occurrences (RemoveEventListener "exit") (calls after) =
       S (occurrences (RemoveEventListener "exit") (calls flow))
  /\ occurrences (RemoveEventListener "loaderror") (calls after) =
       S (occurrences (RemoveEventListener "loaderror") (calls flow)).
Proof.
  intros Hprefix Hquery paramParts params.
  assert (onLoadStart flow address =
          (mk (DeferredPromise.resolve (deferred flow) (param params "token"))
              (calls flow ++
               [RemoveEventListener "exit"; RemoveEventListener "loaderror";
                Close]),
           Return tt)) as ->.
  { unfold onLoadStart. rewrite Hprefix, Hquery, String.eqb_refl.
    reflexivity. }
  cbn [fst snd deferred calls].
  repeat split; rewrite occurrences_app, Nat.add_comm; reflexivity.
Qed.

Lemma onLoadStart_token_xyz :
  onLoadStart opened "http://auth.ionic.io/?token=xyz" =
  (mk (Fulfilled (Val "xyz"))
      (calls opened ++
       [RemoveEventListener "exit"; RemoveEventListener "loaderror"; Close]),
   Return tt).
Proof. vm_compute. reflexivity. Qed.

(** C1, at a ['loadstart'] whose address starts with the prefix and has no
    query string: [split('?')[1]] is [undefined], the handler throws a
    [TypeError] on [queryString.split], and it neither detaches a
    listener, nor closes the surface, nor settles the promise. *)
Theorem onLoadStart_without_query_throws (flow : Flow) :
  onLoadStart flow "http://auth.ionic.io/" = (flow, Throw TypeError).
Proof. reflexivity. Qed.

End BrowserFlow.

(** * Further properties *)

(** ** Token contexts *)

Section TokenContexts.

(** X1: on an [AuthTokenContext], [get] after [store] returns the token
    stored last, [get] after [delete] returns [null] whatever was stored,
    and a context with another label over the same backend reads what it
    read before the [store] or the [delete]. *)
Theorem AuthTokenContext_store_get_delete (this : AuthTokenContext.t)
    (token token' other : string) :
  AuthTokenContext.get (AuthTokenContext.store this token) = Val token
  /\ AuthTokenContext.get
       (AuthTokenContext.store (AuthTokenContext.store this token) token')
     = Val token'
  /\ AuthTokenContext.get
       (AuthTokenContext.delete (AuthTokenContext.store this token))
     = Null
  /\ (other <> AuthTokenContext.label this ->
      AuthTokenContext.get
        (AuthTokenContext.mk
           (AuthTokenContext.storage (AuthTokenContext.store this token))
           other)
      = AuthTokenContext.get
          (AuthTokenContext.mk (AuthTokenContext.storage this) other)
      /\ AuthTokenContext.get
           (AuthTokenContext.mk
              (AuthTokenContext.storage (AuthTokenContext.delete this))
              other)
         = AuthTokenContext.get
             (AuthTokenContext.mk (AuthTokenContext.storage this) other)).
Proof.
  unfold AuthTokenContext.get, AuthTokenContext.store,
    AuthTokenContext.delete, IStorage.get, IStorage.set, IStorage.delete.
  cbn. repeat split.
  - by rewrite lookup_insert_eq.
  - by rewrite lookup_insert_eq.
  - by rewrite lookup_delete_eq.
  - by rewrite lookup_insert_ne.
  - by rewrite lookup_delete_ne.
Qed.

Lemma AuthTokenContext_store_get_delete_witness :
  AuthTokenContext.get
    (AuthTokenContext.mk
       (AuthTokenContext.storage
          (AuthTokenContext.store (AuthTokenContext.mk ∅ "a") "T"))
       "b")
  = AuthTokenContext.get (AuthTokenContext.mk ∅ "b").
Proof.
  apply (AuthTokenContext_store_get_delete (AuthTokenContext.mk ∅ "a")
           "T" "T" "b").
  discriminate.
Defined.

Import CombinedAuthTokenContext.

(** X2: on a [CombinedAuthTokenContext], a [store] (in either tier) or a
    [delete] under one label leaves what a context with another label
    over the same two backends gets. *)
Theorem CombinedAuthTokenContext_other_label (this : t) (token other : string)
    (options : option ICombinedTokenContextStoreOptions) :
  other <> label this ->
  get (mk (storage (store this token options))
          (tempStorage (store this token options)) other)
  = get (mk (storage this) (tempStorage this) other)
  /\ get (mk (storage (delete this)) (tempStorage (delete this)) other)
     = get (mk (storage this) (tempStorage this) other).
Proof.
  intros Hother. split.
  - unfold store. destruct (truthy (permanent _));
      unfold get, IStorage.get, IStorage.set; cbn;
      by rewrite lookup_insert_ne.
  - unfold delete, get, IStorage.get, IStorage.delete. cbn.
    by rewrite !lookup_delete_ne.
Qed.

Lemma CombinedAuthTokenContext_other_label_witness :
  get (mk (storage (store (fresh "a") "T" ephemeral))
          (tempStorage (store (fresh "a") "T" ephemeral)) "b")
  = get (mk (storage (fresh "a")) (tempStorage (fresh "a")) "b").
Proof.
  apply (CombinedAuthTokenContext_other_label (fresh "a") "T" "b" ephemeral).
  discriminate.
Defined.

End TokenContexts.

(** ** Auth: what a login leaves behind *)

Section AuthLogin.

Context {Data IUser : Type}.

Import Auth.

Lemma storeToken_tokenContext (this : Auth.t Data IUser)
    (options : option LoginOptions) (token : string) :
  tokenContext (storeToken this options token) =
  CombinedAuthTokenContext.store (tokenContext this) token
    (Some {| permanent :=
               remember (default {| remember := Val true |} options) |}).
Proof. reflexivity. Qed.

Lemma get_store_truthy (context : CombinedAuthTokenContext.t)
    (token : string) (options : option ICombinedTokenContextStoreOptions) :
  token <> "" ->
  truthy (CombinedAuthTokenContext.get
            (CombinedAuthTokenContext.store context token options)) = true.
Proof.
  intros Htoken. apply truthy_string_true in Htoken.
  unfold CombinedAuthTokenContext.store.
  destruct (truthy (permanent _)); rewrite get_unfold;
    cbn [CombinedAuthTokenContext.tempStorage CombinedAuthTokenContext.storage
         CombinedAuthTokenContext.label];
    rewrite IStorage_get_set.
  - unfold or_else.
    destruct (truthy (IStorage.get _ _)) eqn:Htemp; [exact Htemp|].
    exact Htoken.
  - rewrite or_else_truthy; exact Htoken.
Qed.

Lemma get_store_ephemeral_nonempty (context : CombinedAuthTokenContext.t)
    (token : string) :
  token <> "" ->
  CombinedAuthTokenContext.get
    (CombinedAuthTokenContext.store context token
       (Some {| permanent := Val false |}))
  = Val token.
Proof.
  intros Htoken. rewrite get_unfold.
  change (Some {| permanent := Val false |}) with ephemeral.
  rewrite store_ephemeral.
  cbn [CombinedAuthTokenContext.tempStorage CombinedAuthTokenContext.storage
       CombinedAuthTokenContext.label].
  rewrite IStorage_get_set. apply or_else_truthy.
  by apply truthy_string_true.
Qed.

Lemma store_permanent_truthy (context : CombinedAuthTokenContext.t)
    (token : string) (options : ICombinedTokenContextStoreOptions) :
  truthy (permanent options) = true ->
  CombinedAuthTokenContext.store context token (Some options) =
  CombinedAuthTokenContext.store context token durable.
Proof.
  destruct options as [[| |[|]]]; try discriminate; reflexivity.
Qed.

Lemma store_permanent_falsy (context : CombinedAuthTokenContext.t)
    (token : string) (options : ICombinedTokenContextStoreOptions) :
  truthy (permanent options) = false ->
  CombinedAuthTokenContext.store context token (Some options) =
  CombinedAuthTokenContext.store context token ephemeral.
Proof.
  destruct options as [[| |[|]]]; try discriminate; reflexivity.
Qed.

(** X3: what [getToken] gives after [storeToken].  A token stored with
    [remember] false, when it is not empty, is the one [getToken] returns.
    A token stored with [remember] true (or without options) is returned
    only when the ephemeral tier holds nothing or the empty string under
    the label; a non-empty token of an earlier session-only login is
    returned instead, while [authToken] is the new token. *)
Theorem getToken_after_storeToken (this : Auth.t Data IUser) (token : string) :
  (token <> "" ->
   getToken (storeToken this (Some {| remember := Val false |}) token)
   = Val token)
  /\ (forall options session,
        truthy (remember (default {| remember := Val true |} options)) = true ->
        CombinedAuthTokenContext.tempStorage (tokenContext this)
          !! CombinedAuthTokenContext.label (tokenContext this)
        = Some session ->
        session <> "" ->
        getToken (storeToken this options token) = Val session
        /\ authToken (storeToken this options token) = Val token)
  /\ (forall options,
        truthy (remember (default {| remember := Val true |} options)) = true ->
        CombinedAuthTokenContext.tempStorage (tokenContext this)
          !! CombinedAuthTokenContext.label (tokenContext this) = None
        \/ CombinedAuthTokenContext.tempStorage (tokenContext this)
             !! CombinedAuthTokenContext.label (tokenContext this) = Some "" ->
        getToken (storeToken this options token) = Val token).
Proof.
  split; [|split].
  - intros Htoken. unfold getToken. rewrite storeToken_tokenContext.
    cbn [default remember].
    by apply get_store_ephemeral_nonempty.
  - intros options session Hremember Hsession Hnonempty.
    split; [|reflexivity]. unfold getToken.
    rewrite storeToken_tokenContext, store_permanent_truthy by done.
    rewrite get_unfold, store_durable.
    cbn [CombinedAuthTokenContext.tempStorage CombinedAuthTokenContext.storage
         CombinedAuthTokenContext.label].
    unfold IStorage.get at 1. rewrite Hsession.
    apply or_else_truthy. by apply truthy_string_true.
  - intros options Hremember Hsession. unfold getToken.
    rewrite storeToken_tokenContext, store_permanent_truthy by done.
    rewrite get_unfold, store_durable.
    cbn [CombinedAuthTokenContext.tempStorage CombinedAuthTokenContext.storage
         CombinedAuthTokenContext.label].
    rewrite IStorage_get_set. apply or_else_falsy.
    unfold IStorage.get. by destruct Hsession as [-> | ->].
Qed.

(** X4: a [login] whose module rejects, throws or never settles stores
    no token: the token context and [authToken] are as before, no event is
    emitted, the user service is not called, and [login] gives back the
    rejection, the throw or a pending promise. *)
Theorem login_failure_stores_nothing (this : Auth.t Data IUser)
    (moduleId : AuthModuleId) (data : Data) (options : option LoginOptions)
    (context : IAuthType Data) :
  authModules this moduleId = Some context ->
  (forall token, authenticate context data <> Return (Fulfilled token)) ->
  fst (login this moduleId data options) =
    perform this [Authenticate moduleId data]
  /\ tokenContext (fst (login this moduleId data options)) = tokenContext this
  /\ authToken (fst (login this moduleId data options)) = authToken this
  /\ snd (login this moduleId data options) =
       match authenticate context data with
       | Return (Rejected e) => Return (Rejected e)
       | Throw e => Throw e
       | _ => Return Pending
       end.
Proof.
  intros Hmodule Hfails. unfold login. rewrite Hmodule.
  destruct (authenticate context data) as [[|token|e]|e]; try done.
  by destruct (Hfails token).
Qed.

(** X5: when the module resolves with a token and the user service then
    fails to load, the promise of [login] is rejected with that failure,
    yet the token is stored and cached and the event emitted; with a token
    that is not empty [isAuthenticated] is true afterwards.  [store] of the
    user is not called. *)
Theorem login_load_failure_keeps_token (this : Auth.t Data IUser)
    (moduleId : AuthModuleId) (data : Data) (options : option LoginOptions)
    (context : IAuthType Data) (token : string) (e : Error) :
  authModules this moduleId = Some context ->
  authenticate context data = Return (Fulfilled token) ->
  load (userService this) = Rejected e ->
  let after := fst (login this moduleId data options) in
  snd (login this moduleId data options) = Return (Rejected e)
  /\ authToken after = Val token
  /\ trace after =
       trace this ++
       [Authenticate moduleId data;
        Emit "auth:token-changed"
             {| old := authToken this; new := Val token |};
        UserLoad]
  /\ (token <> "" -> isAuthenticated after = true).
Proof.
  intros Hmodule Hauth Hload after. subst after.
  unfold login. rewrite Hmodule, Hauth.
  cbn [userService perform storeToken]. rewrite Hload.
  cbn [fst snd authToken trace perform]. repeat split.
  - cbn. by rewrite <- ?app_assoc.
  - intros Htoken. rewrite isAuthenticated_unfold. cbn [tokenContext].
    by apply get_store_truthy.
Qed.

(** X6: when the module resolves with a token and the user service loads,
    [login] resolves with the current user after these calls, in this
    order: the module, the event, [load], [current], [store]; a login with
    [remember] false leaves the durable tier as it was, any other login
    leaves the ephemeral tier as it was. *)
Theorem login_success_order_and_tier (this : Auth.t Data IUser)
    (moduleId : AuthModuleId) (data : Data) (options : option LoginOptions)
    (context : IAuthType Data) (token : string) :
  authModules this moduleId = Some context ->
  authenticate context data = Return (Fulfilled token) ->
  load (userService this) = Fulfilled tt ->
  let after := fst (login this moduleId data options) in
  snd (login this moduleId data options) =
    Return (Fulfilled (current (userService this)))
  /\ trace after =
       trace this ++
       [Authenticate moduleId data;
        Emit "auth:token-changed"
             {| old := authToken this; new := Val token |};
        UserLoad; UserCurrent; UserStore]
  /\ (truthy (remember (default {| remember := Val true |} options)) = false ->
      CombinedAuthTokenContext.storage (tokenContext after) =
      CombinedAuthTokenContext.storage (tokenContext this))
  /\ (truthy (remember (default {| remember := Val true |} options)) = true ->
      CombinedAuthTokenContext.tempStorage (tokenContext after) =
      CombinedAuthTokenContext.tempStorage (tokenContext this)).
Proof.
  intros Hmodule Hauth Hload after. subst after.
  unfold login. rewrite Hmodule, Hauth.
  cbn [userService perform storeToken]. rewrite Hload.
  cbn [fst snd authToken trace perform tokenContext userService].
  repeat split.
  - cbn. by rewrite <- ?app_assoc.
  - intros Hremember.
    by rewrite storeToken_tokenContext, store_permanent_falsy.
  - intros Hremember.
    by rewrite storeToken_tokenContext, store_permanent_truthy.
Qed.

End AuthLogin.

Section AuthLoginWitnesses.

Import Auth Inputs MoreInputs.

Lemma getToken_after_storeToken_witness :
  getToken (storeToken inSession None "abc") = Val "T2"
  /\ authToken (storeToken inSession None "abc") = Val "abc".
Proof.
  destruct (getToken_after_storeToken inSession "abc") as (_ & Hsession & _).
  apply (Hsession None "T2"); [reflexivity | reflexivity | discriminate].
Defined.

Lemma login_failure_stores_nothing_witness :
  tokenContext (fst (login refused basic credentials None)) =
  tokenContext refused.
Proof.
  destruct (login_failure_stores_nothing refused basic credentials None
              {| authenticate :=
                   fun _ => Return (Rejected (MkError "Invalid password")) |}
              eq_refl)
    as (_ & Hcontext & _).
  - intros token. discriminate.
  - exact Hcontext.
Defined.

Lemma login_load_failure_keeps_token_witness :
  snd (login loadFails basic credentials None) =
    Return (Rejected (MkError "Network down"))
  /\ isAuthenticated (fst (login loadFails basic credentials None)) = true.
Proof.
  destruct (login_load_failure_keeps_token loadFails basic credentials None
              {| authenticate := fun _ => Return (Fulfilled "abc") |}
              "abc" (MkError "Network down") eq_refl eq_refl eq_refl)
    as (Hrejected & _ & _ & Hauthenticated).
  split; [exact Hrejected | apply Hauthenticated; discriminate].
Defined.

Lemma login_success_order_and_tier_witness :
  snd (login service basic credentials None) = Return (Fulfilled "user-1").
Proof.
  destruct (login_success_order_and_tier service basic credentials None
              {| authenticate := fun _ => Return (Fulfilled "abc") |}
              "abc" eq_refl eq_refl eq_refl)
    as (Hresolved & _).
  exact Hresolved.
Defined.

End AuthLoginWitnesses.

(** ** BasicAuth: signup and the replies *)

Section BasicReplies.

Import BasicAuth.

(** X7: [signup] validates nothing: for every [data], also without email
    or password, it hands one POST to [/users] to the HTTP client and
    returns a pending promise.  The body always has [app_id], [email] and
    [password]; it has [username], [image] and [name] exactly when the
    detail is a non-empty string, and [custom] exactly when there is one;
    no property is set twice. *)
Theorem signup_request {Custom : Type} (this : t)
    (data : UserDetails.t Custom) :
  exists userData,
    BasicAuthSignup.signup this data =
      ([BasicAuthSignup.request "POST" "/users" userData], Pending)
    /\ BasicAuthSignup.field "app_id" userData =
         Some (BasicAuthSignup.Text (IConfig.get (config this) "app_id"))
    /\ BasicAuthSignup.field "email" userData =
         Some (BasicAuthSignup.Text (UserDetails.email data))
    /\ BasicAuthSignup.field "password" userData =
         Some (BasicAuthSignup.Text (UserDetails.password data))
    /\ BasicAuthSignup.field "username" userData =
         (if truthy (UserDetails.username data)
          then Some (BasicAuthSignup.Text (UserDetails.username data))
          else None)
    /\ BasicAuthSignup.field "image" userData =
         (if truthy (UserDetails.image data)
          then Some (BasicAuthSignup.Text (UserDetails.image data))
          else None)
    /\ BasicAuthSignup.field "name" userData =
         (if truthy (UserDetails.name data)
          then Some (BasicAuthSignup.Text (UserDetails.name data))
          else None)
    /\ BasicAuthSignup.field "custom" userData =
         match UserDetails.custom data with
         | Val o => Some (BasicAuthSignup.Object o)
         | _ => None
         end
    /\ NoDup (map fst userData).
Proof.
  eexists. split; [reflexivity|]. unfold BasicAuthSignup.optional.
  destruct (truthy (UserDetails.username data)),
    (truthy (UserDetails.image data)), (truthy (UserDetails.name data)),
    (UserDetails.custom data);
    cbn; repeat split; by apply (bool_decide_unpack _).
Qed.

(** X8: the callback of [authenticate] throws a [TypeError], and so leaves
    the promise pending, exactly when the client reports no error and the
    reply has no [body.data]; it never resolves when the client reports an
    error, whatever the reply holds. *)
Theorem authenticate_end_throws_iff (err : js HttpError) (res : js Response) :
  (authenticate_end Pending err res = Throw TypeError <->
   absent err /\
   forall res_body res_body_data,
     res = Val {| body := Val res_body |} ->
     data res_body <> Val res_body_data)
  /\ (forall value,
        authenticate_end Pending err res = Return (Fulfilled value) ->
        absent err).
Proof.
  split.
  - split.
    + intros Hthrows. destruct err as [| |e]; [| |discriminate].
      * split; [exact I|]. intros res_body res_body_data -> Hdata.
        cbn in Hthrows. by rewrite Hdata in Hthrows.
      * split; [exact I|]. intros res_body res_body_data -> Hdata.
        cbn in Hthrows. by rewrite Hdata in Hthrows.
    + intros [Habsent Hnodata]. destruct err as [| |e]; [| |done].
      * destruct res as [| |[[| |res_body]]]; try reflexivity.
        destruct (data res_body) as [| |res_body_data] eqn:Hdata;
          cbn; rewrite Hdata; try reflexivity.
        by destruct (Hnodata res_body res_body_data eq_refl).
      * destruct res as [| |[[| |res_body]]]; try reflexivity.
        destruct (data res_body) as [| |res_body_data] eqn:Hdata;
          cbn; rewrite Hdata; try reflexivity.
        by destruct (Hnodata res_body res_body_data eq_refl).
  - intros value Hresolved. by destruct err.
Qed.

Lemma authenticate_end_throws_iff_witness :
  authenticate_end Pending Null (Val {| body := Undefined |})
  = Throw TypeError.
Proof.
  apply (proj1 (authenticate_end_throws_iff Null
                  (Val {| body := Undefined |}))).
  split; [exact I|]. intros res_body res_body_data. discriminate.
Defined.

End BasicReplies.

(** ** getDetailedErrorFromResponse in general *)

Section DetailedErrorsInGeneral.

Import Auth BasicAuth.

Lemma collectErrors_present (details : list ErrorDetail)
    (errors : list string) :
  collectErrors (map Val details) errors =
  Return (errors ++
          map errorCode
            (List.filter (fun detail => truthy (error_type detail)) details)).
Proof.
  revert errors. induction details as [|detail details IH]; intros errors.
  - cbn. by rewrite app_nil_r.
  - cbn [map collectErrors prop mbind completion_bind List.filter].
    destruct (truthy (error_type detail)).
    + rewrite IH. cbn [map]. by rewrite <- app_assoc.
    + apply IH.
Qed.

Lemma collectErrors_throws (details : list (js ErrorDetail))
    (errors : list string) :
  (exists detail, detail ∈ details /\ absent detail) ->
  collectErrors details errors = Throw TypeError.
Proof.
  revert errors. induction details as [|detail details IH]; intros errors.
  - intros (detail & Hin & _). by apply elem_of_nil in Hin.
  - intros (nullish & Hin & Habsent). cbn.
    destruct detail as [| |present]; try reflexivity.
    cbn. apply elem_of_cons in Hin as [->|Hin]; [done|].
    destruct (truthy (error_type present)); apply IH; eauto.
Qed.

Lemma entries_cases (details : list (js ErrorDetail)) :
  (exists detail, detail ∈ details /\ absent detail)
  \/ exists present, details = map Val present.
Proof.
  induction details as [|detail details IH].
  - right. by exists [].
  - destruct detail as [| |d].
    + left. exists Undefined. split; [left | exact I].
    + left. exists Null. split; [left | exact I].
    + destruct IH as [(nullish & Hin & Habsent)|[present ->]].
      * left. exists nullish. split; [by right | done].
      * right. by exists (d :: present).
Qed.

Lemma present_not_absent (present : list ErrorDetail)
    (detail : js ErrorDetail) :
  detail ∈ map Val present -> ~ absent detail.
Proof.
  intros Hin. apply list_elem_of_fmap in Hin as (d & -> & _). by intros [].
Qed.

(** X9: for a reply whose [body.error.details] is an array without
    [undefined] or [null] entries, the codes are those of the entries with
    a non-empty [error_type], in the order of the array, each
    [error_type + '_' + parameter]; entries without [error_type] are
    skipped, so there are at most as many codes as entries. *)
Theorem getDetailedErrorFromResponse_codes (res_data : js DataBody)
    (entries : list ErrorDetail) :
  let codes :=
    map errorCode
      (List.filter (fun detail => truthy (error_type detail)) entries) in
  getDetailedErrorFromResponse
    (Val {| body := Val {| data := res_data;
                           error := Val {| details :=
                                             Val (map Val entries) |} |} |})
  = Return (DetailedError "Error creating user" codes)
  /\ length codes <= length entries.
Proof.
  intros codes. split.
  - unfold getDetailedErrorFromResponse. cbn.
    by rewrite collectErrors_present.
  - subst codes. rewrite length_map. apply List.filter_length_le.
Qed.

(** X10: [getDetailedErrorFromResponse] throws, a [TypeError], exactly
    when the reply has a [body.error] whose [details] is [undefined] or
    [null] or has such an entry; in every other case it returns a
    [DetailedError] with the message ['Error creating user']. *)
Theorem getDetailedErrorFromResponse_throws_iff (res : js Response) :
  (getDetailedErrorFromResponse res = Throw TypeError <->
   exists res_body res_body_error,
     res = Val {| body := Val res_body |}
     /\ error res_body = Val res_body_error
     /\ (absent (details res_body_error)
         \/ exists entries detail,
              details res_body_error = Val entries
              /\ detail ∈ entries /\ absent detail))
  /\ (getDetailedErrorFromResponse res <> Throw TypeError ->
      exists codes,
        getDetailedErrorFromResponse res =
        Return (DetailedError "Error creating user" codes)).
Proof.
  assert (Hcases :
    (exists res_body res_body_error,
       res = Val {| body := Val res_body |}
       /\ error res_body = Val res_body_error)
    \/ (forall res_body res_body_error,
          res = Val {| body := Val res_body |} ->
          error res_body <> Val res_body_error)
       /\ getDetailedErrorFromResponse res =
          Return (DetailedError "Error creating user" [])).
  { destruct res as [| |[[| |[res_data [| |res_body_error]]]]];
      try (right; split; [intros ? ?; try discriminate; by intros [= <-]
                         | reflexivity]).
    left. by eexists _, _. }
  destruct Hcases
    as [(res_body & res_body_error & -> & Herror)|[Hnoerror Hempty]].
  - assert (Hunfold :
      getDetailedErrorFromResponse (Val {| body := Val res_body |}) =
      entries ← prop (details res_body_error) id;
      errors ← collectErrors entries [];
      Return (DetailedError "Error creating user" errors)).
    { unfold getDetailedErrorFromResponse. cbn. by rewrite Herror. }
    rewrite Hunfold. clear Hunfold.
    destruct (details res_body_error) as [| |entries] eqn:Hdetails.
    + cbn. split; [|by intros []]. split; [intros _|done].
      exists res_body, res_body_error. rewrite Hdetails. cbn. by auto.
    + cbn. split; [|by intros []]. split; [intros _|done].
      exists res_body, res_body_error. rewrite Hdetails. cbn. by auto.
    + cbn [prop mbind completion_bind id].
      destruct (entries_cases entries) as [Hnullish|[present ->]].
      * rewrite (collectErrors_throws _ _ Hnullish). cbn.
        split; [|by intros []].
        split; [intros _|done]. exists res_body, res_body_error.
        split; [done|]. split; [done|]. right.
        destruct Hnullish as (detail & Hin & Habsent).
        exists entries, detail. by rewrite Hdetails.
      * rewrite collectErrors_present. cbn. split; [|eauto].
        split; [discriminate|].
        intros (res_body' & res_body_error' & [= <-] & Herror' & Hbad).
        rewrite Herror in Herror'. injection Herror' as <-.
        rewrite Hdetails in Hbad.
        destruct Hbad as [[]|(entries' & detail & [= <-] & Hin & Habsent)].
        by destruct (present_not_absent present detail Hin).
  - rewrite Hempty. split; [|eauto]. split; [discriminate|].
    intros (res_body & res_body_error & -> & Herror & _).
    by destruct (Hnoerror res_body res_body_error eq_refl).
Qed.

End DetailedErrorsInGeneral.

Section SignupReplies.

Import Auth BasicAuth Inputs.

Lemma getDetailedErrorFromResponse_throws_iff_witness :
  exists codes,
    getDetailedErrorFromResponse requiredEmail =
    Return (DetailedError "Error creating user" codes).
Proof.
  apply (proj2 (getDetailedErrorFromResponse_throws_iff requiredEmail)).
  discriminate.
Defined.

Lemma getDetailedErrorFromResponse_returns (res : js Response) (e : Error) :
  getDetailedErrorFromResponse res = Return e ->
  exists codes, e = DetailedError "Error creating user" codes.
Proof.
  unfold getDetailedErrorFromResponse.
  destruct (match _ with Return d => d | Throw _ => _ end) as [| |entries];
    try discriminate.
  cbn. destruct (collectErrors entries []) as [codes|]; [|discriminate].
  cbn. intros [= <-]. by exists codes.
Qed.

(** X11: when the client reports an error, the callback of [signup] never
    rejects with that error: it rejects with a [DetailedError] whose
    message is ['Error creating user'], or it throws and leaves the
    promise pending, which it does exactly when
    [getDetailedErrorFromResponse] throws on [err.response]; without an
    error it resolves and does not read the reply. *)
Theorem signup_end_outcomes (err : HttpError) (res : js Response) :
  (forall settled,
     signup_end Pending (Val err) res = Return settled ->
     exists codes,
       settled = Rejected (DetailedError "Error creating user" codes))
  /\ (signup_end Pending (Val err) res = Throw TypeError <->
      getDetailedErrorFromResponse (response err) = Throw TypeError)
  /\ signup_end Pending Null res = Return (Fulfilled tt)
  /\ signup_end Pending Undefined res = Return (Fulfilled tt).
Proof.
  unfold signup_end. split; [|split; [|done]].
  - intros settled.
    destruct (getDetailedErrorFromResponse (response err)) as [e|] eqn:He;
      [|discriminate].
    cbn. intros [= <-].
    destruct (getDetailedErrorFromResponse_returns _ _ He) as [codes ->].
    by exists codes.
  - destruct (getDetailedErrorFromResponse (response err)); cbn;
      intuition congruence.
Qed.

Lemma signup_end_outcomes_witness :
  exists codes,
    Rejected (DetailedError "Error creating user" ["required_email"]) =
    Rejected (V := unit) (DetailedError "Error creating user" codes).
Proof.
  apply (proj1 (signup_end_outcomes
                  {| cause := "Unprocessable"; response := requiredEmail |}
                  Undefined)).
  reflexivity.
Defined.

End SignupReplies.

(** ** Strings *)

Section Strings.

Lemma append_nil_l (s : string) : "" +:+ s = s.
Proof. reflexivity. Qed.

Lemma append_cons (c : ascii) (s1 s2 : string) :
  String c s1 +:+ s2 = String c (s1 +:+ s2).
Proof. reflexivity. Qed.

Lemma slice0_prefix (p s : string) :
  slice0 (String.length p) s = p <-> exists rest, s = p +:+ rest.
Proof.
  unfold slice0. revert s. induction p as [|c p IH]; intros s.
  - cbn. split; [intros _; by exists s|].
    intros _. by destruct s.
  - cbn [String.length substring]. destruct s as [|c' s].
    + split; [discriminate | intros [rest [=]]].
    + split.
      * intros [= -> Hp]. apply IH in Hp as [rest ->]. by exists rest.
      * intros [rest [= -> ->]]. cbn. f_equal. apply IH. by exists rest.
Qed.

Lemma split_without (c : ascii) (s : string) :
  contains c s = false -> split c s = (s, []).
Proof.
  induction s as [|c' s IH]; [reflexivity|].
  cbn. intros [Hc Hs]%orb_false_iff. by rewrite (IH Hs), Hc.
Qed.

Lemma split_at (c : ascii) (before after : string) :
  contains c before = false ->
  split c (before +:+ String c after) =
  (before, fst (split c after) :: snd (split c after)).
Proof.
  induction before as [|c' before IH].
  - intros _. rewrite append_nil_l. cbn. destruct (split c after).
    by rewrite Ascii.eqb_refl.
  - cbn. intros [Hc Hbefore]%orb_false_iff.
    rewrite append_cons. cbn. by rewrite (IH Hbefore), Hc.
Qed.

Lemma at0_split_contains (c : ascii) (s : string) :
  contains c (at0 (split c s)) = false.
Proof.
  unfold at0. induction s as [|c' s IH]; [reflexivity|].
  cbn. destruct (split c s) as [piece pieces].
  destruct (Ascii.eqb c' c) eqn:Hc; [reflexivity|].
  cbn in *. by rewrite Hc, IH.
Qed.

Lemma at1_split_undefined (c : ascii) (s : string) :
  at1 (split c s) = Undefined <-> contains c s = false.
Proof.
  split.
  - induction s as [|c' s IH]; [reflexivity|].
    unfold at1 in *. cbn. destruct (split c s) as [piece pieces].
    destruct (Ascii.eqb c' c); [discriminate|]. exact IH.
  - intros Hs. by rewrite split_without.
Qed.

Lemma at1_cases (parts : string * list string) :
  at1 parts = Undefined \/ exists piece, at1 parts = Val piece.
Proof. unfold at1. destruct (snd parts); eauto. Qed.

Lemma contains_app (c : ascii) (s1 s2 : string) :
  contains c (s1 +:+ s2) = contains c s1 || contains c s2.
Proof.
  induction s1 as [|c' s1 IH]; [reflexivity|].
  rewrite append_cons. cbn. by rewrite IH, orb_assoc.
Qed.

End Strings.

(** ** The browser flow: which addresses, which token *)

Section Redirects.

Import AuthType.

Lemma accepted_iff (address : string) :
  String.eqb (slice0 20 address) "http://auth.ionic.io" = true <->
  exists rest, address = "http://auth.ionic.io" +:+ rest.
Proof.
  rewrite String.eqb_eq.
  change 20 with (String.length "http://auth.ionic.io").
  apply slice0_prefix.
Qed.

Lemma onLoadStart_accepted (flow : Flow) (address : string) :
  (exists rest, address = "http://auth.ionic.io" +:+ rest) ->
  onLoadStart flow address =
  match at1 (split "?" (at0 (split "#" address))) with
  | Val queryString =>
      let paramParts := split "&" queryString in
      let params := parseParams (fst paramParts :: snd paramParts) in
      (mk (DeferredPromise.resolve (deferred flow) (param params "token"))
          (calls flow ++
           [RemoveEventListener "exit"; RemoveEventListener "loaderror";
            Close]),
       Return tt)
  | _ => (flow, Throw TypeError)
  end.
Proof.
  intros Haccepted%accepted_iff. unfold onLoadStart. by rewrite Haccepted.
Qed.

(** X12: the test for the redirect is a comparison of the first 20
    characters: [onLoadStart] rejects with ['Unexpected url in API
    response'], and does nothing else, exactly when the address does not
    start with [http://auth.ionic.io]; whatever follows these characters,
    a longer host name included, and whatever the state of the flow, a
    ['loadstart'] at such an address is not rejected this way. *)
Theorem onLoadStart_unexpected_iff (flow : Flow) (address : string) :
  onLoadStart flow address =
    (mk (DeferredPromise.reject (deferred flow)
           (MkError "Unexpected url in API response"))
        (calls flow),
     Return tt)
  <-> ~ exists rest, address = "http://auth.ionic.io" +:+ rest.
Proof.
  split.
  - intros Hrejected Haccepted.
    rewrite (onLoadStart_accepted _ _ Haccepted) in Hrejected.
    destruct (at1 _); try discriminate.
    cbn zeta in Hrejected. injection Hrejected as _ Hcalls.
    rewrite <- (app_nil_r (calls flow)) in Hcalls at 2.
    by apply app_inv_head in Hcalls.
  - intros Hother. apply onLoadStart_unexpected.
    intros Hprefix. apply Hother, accepted_iff.
    by apply String.eqb_eq.
Qed.

(** X13: [onLoadStart] throws, a [TypeError], exactly when the address
    starts with [http://auth.ionic.io] and has no ['?'] before its first
    ['#']; the flow is then as it was before the event.  So a token
    carried in the fragment only is not read: the handler throws. *)
Theorem onLoadStart_throws_iff (flow : Flow) (address : string) :
  (snd (onLoadStart flow address) = Throw TypeError <->
   (exists rest, address = "http://auth.ionic.io" +:+ rest)
   /\ contains "?" (at0 (split "#" address)) = false)
  /\ (snd (onLoadStart flow address) = Throw TypeError ->
      fst (onLoadStart flow address) = flow)
  /\ (forall rest fragment,
        contains "?" rest = false ->
        contains "#" rest = false ->
        onLoadStart flow
          ("http://auth.ionic.io" +:+ rest +:+ "#" +:+ fragment)
        = (flow, Throw TypeError)).
Proof.
  assert (Hiff :
    snd (onLoadStart flow address) = Throw TypeError <->
    (exists rest, address = "http://auth.ionic.io" +:+ rest)
    /\ contains "?" (at0 (split "#" address)) = false).
  { split.
    - intros Hthrows.
      destruct (String.eqb (slice0 20 address) "http://auth.ionic.io")
        eqn:Hprefix.
      + apply accepted_iff in Hprefix. split; [exact Hprefix|].
        rewrite (onLoadStart_accepted _ _ Hprefix) in Hthrows.
        apply at1_split_undefined.
        destruct (at1_cases (split "?" (at0 (split "#" address))))
          as [Hnone|[queryString Hsome]]; [exact Hnone|].
        by rewrite Hsome in Hthrows.
      + unfold onLoadStart in Hthrows. by rewrite Hprefix in Hthrows.
    - intros [Haccepted Hquery]. rewrite (onLoadStart_accepted _ _ Haccepted).
      apply at1_split_undefined in Hquery. by rewrite Hquery. }
  split; [exact Hiff|]. split.
  - intros [Haccepted Hquery]%Hiff.
    rewrite (onLoadStart_accepted _ _ Haccepted).
    apply at1_split_undefined in Hquery. by rewrite Hquery.
  - intros rest fragment Hquery Hfragment.
    rewrite onLoadStart_accepted by eauto.
    assert (at0 (split "#"
                   ("http://auth.ionic.io" +:+ rest +:+ "#" +:+ fragment))
            = "http://auth.ionic.io" +:+ rest) as ->.
    { change ("http://auth.ionic.io" +:+ rest +:+ "#" +:+ fragment)
        with (("http://auth.ionic.io" +:+ rest) +:+ String "#" fragment).
      rewrite split_at; [reflexivity|].
      rewrite contains_app, Hfragment. reflexivity. }
    assert (contains "?" ("http://auth.ionic.io" +:+ rest) = false)
      as Hnone by (rewrite contains_app, Hquery; reflexivity).
    apply at1_split_undefined in Hnone. by rewrite Hnone.
Qed.

Lemma onLoadStart_throws_iff_witness :
  onLoadStart Inputs.opened "http://auth.ionic.io/#?token=xyz"
  = (Inputs.opened, Throw TypeError).
Proof.
  destruct (onLoadStart_throws_iff Inputs.opened "") as (_ & _ & Hfragment).
  apply (Hfragment "/" "?token=xyz"); reflexivity.
Defined.

End Redirects.

Section TokenParameter.

Import AuthType.

Lemma append_assoc (s1 s2 s3 : string) :
  s1 +:+ s2 +:+ s3 = (s1 +:+ s2) +:+ s3.
Proof.
  induction s1 as [|c s1 IH]; [reflexivity|].
  rewrite !append_cons. by rewrite IH.
Qed.





(** X15: a round trip.  For an address made of the prefix, a path without
    ['#'] and ['?'], and the query [token=T] where T has none of ['#'],
    ['?'], ['&'] and ['='], followed or not by a fragment, [onLoadStart]
    on a pending flow resolves with T, detaches the two listeners and
    closes the surface. *)
Theorem onLoadStart_token_round_trip (calls : list BrowserCall)
    (path T fragment : string) :
  contains "#" path = false ->
  contains "?" path = false ->
  contains "#" T = false ->
  contains "?" T = false ->
  contains "&" T = false ->
  contains "=" T = false ->
  let after :=
    (mk (Fulfilled (Val T))
        (calls ++
         [RemoveEventListener "exit"; RemoveEventListener "loaderror";
          Close]),
     Return tt) in
  onLoadStart (mk Pending calls)
    ("http://auth.ionic.io" +:+ path +:+ "?token=" +:+ T) = after
  /\ onLoadStart (mk Pending calls)
       ("http://auth.ionic.io" +:+ path +:+ "?token=" +:+ T +:+ "#"
        +:+ fragment) = after.
Proof.
  intros Hpath1 Hpath2 HT1 HT2 HT3 HT4 after.
  set (base := "http://auth.ionic.io" +:+ path).
  assert (Hbase1 : contains "#" base = false)
    by (subst base; rewrite contains_app, Hpath1; reflexivity).
  assert (Hbase2 : contains "?" base = false)
    by (subst base; rewrite contains_app, Hpath2; reflexivity).
  set (query := "token=" +:+ T).
  assert (Hquery1 : contains "#" query = false)
    by (subst query; rewrite contains_app, HT1; reflexivity).
  assert (Hquery2 : contains "?" query = false)
    by (subst query; rewrite contains_app, HT2; reflexivity).
  assert (Hquery3 : contains "&" query = false)
    by (subst query; rewrite contains_app, HT3; reflexivity).
  assert (Hparsed : param (parseParams [query]) "token" = Val T).
  { unfold parseParams, param. cbn [fold_left]. subst query.
    change ("token=" +:+ T) with ("token" +:+ String "=" T).
    rewrite split_at by reflexivity. rewrite (split_without _ T HT4).
    unfold at0, at1. cbn [fst snd]. by rewrite lookup_insert_eq. }
  assert (Hresult : forall address,
    (exists rest, address = "http://auth.ionic.io" +:+ rest) ->
    at0 (split "#" address) = base +:+ String "?" query ->
    onLoadStart (mk Pending calls) address = after).
  { intros address Haccepted Hbefore.
    rewrite (onLoadStart_accepted _ _ Haccepted), Hbefore.
    rewrite split_at by exact Hbase2.
    rewrite (split_without _ query Hquery2).
    unfold at1 at 1. cbn [fst snd].
    rewrite (split_without _ query Hquery3). cbn [fst snd].
    rewrite Hparsed. reflexivity. }
  split.
  - apply Hresult; [eauto|].
    change ("http://auth.ionic.io" +:+ path +:+ "?token=" +:+ T)
      with ("http://auth.ionic.io" +:+ path +:+ String "?" query).
    rewrite append_assoc. fold base.
    rewrite split_without; [reflexivity|].
    rewrite contains_app, Hbase1. cbn. exact Hquery1.
  - apply Hresult; [eauto|].
    assert ("http://auth.ionic.io" +:+ path +:+ "?token=" +:+ T +:+ "#"
            +:+ fragment
            = (base +:+ String "?" query) +:+ String "#" fragment) as ->.
    { subst base query.
      rewrite <- !append_assoc, append_cons, <- ?append_assoc.
      reflexivity. }
    rewrite split_at; [reflexivity|].
    rewrite contains_app, Hbase1. cbn. exact Hquery1.
Qed.

Lemma onLoadStart_token_round_trip_witness :
  onLoadStart (mk Pending []) "http://auth.ionic.io/done?token=xyz#top" =
  (mk (Fulfilled (Val "xyz"))
      [RemoveEventListener "exit"; RemoveEventListener "loaderror"; Close],
   Return tt).
Proof.
  apply (onLoadStart_token_round_trip [] "/done" "xyz" "top");
    reflexivity.
Defined.

End TokenParameter.

(** ** The browser flow: sequences of events *)

Section Events.

Import AuthType InAppBrowserFlow.

Lemma occurrences_Close_detached : occurrences Close detached = 1.
Proof. reflexivity. Qed.

Lemma occurrences_nil (call : BrowserCall) : occurrences call [] = 0.
Proof. reflexivity. Qed.

Lemma listening_app (event : string) (calls more : list BrowserCall) :
  listening event (calls ++ more) =
  fold_left
    (fun attached call =>
       match call with
       | AddEventListener e => if String.eqb e event then true else attached
       | RemoveEventListener e =>
           if String.eqb e event then false else attached
       | _ => attached
       end)
    more (listening event calls).
Proof. unfold listening. by rewrite fold_left_app. Qed.

Lemma redirect_spec (address : string) :
  redirect (LoadStart address) = true <->
  (exists rest, address = "http://auth.ionic.io" +:+ rest)
  /\ exists queryString,
       at1 (split "?" (at0 (split "#" address))) = Val queryString.
Proof.
  unfold redirect. rewrite andb_true_iff, accepted_iff.
  destruct (at1 (split "?" (at0 (split "#" address)))) as [| |queryString].
  - split; [intros [_ [=]] | intros [_ [q [=]]]].
  - split; [intros [_ [=]] | intros [_ [q [=]]]].
  - split; [intros [H _]; eauto | intros [H _]; auto].
Qed.

Lemma dispatch_calls (flow : Flow) (event : BrowserEvent) :
  calls (fst (dispatch flow event)) =
  calls flow ++
  (if listening (eventName event) (calls flow) && redirect event
   then detached else []).
Proof.
  unfold dispatch.
  destruct (listening (eventName event) (calls flow)); cbn [andb fst];
    [|by rewrite app_nil_r].
  destruct event as [| |address]; cbn [redirect fst onExit onLoadError calls];
    try by rewrite app_nil_r.
  unfold onLoadStart.
  destruct (String.eqb (slice0 20 address) "http://auth.ionic.io");
    cbn [andb fst calls]; [|by rewrite app_nil_r].
  destruct (at1 (split "?" (at0 (split "#" address))));
    cbn [fst calls]; by rewrite ?app_nil_r.
Qed.

Lemma deliver_cons (flow : Flow) (event : BrowserEvent)
    (events : list BrowserEvent) :
  deliver flow (event :: events) = deliver (fst (dispatch flow event)) events.
Proof. reflexivity. Qed.

(** X16: over every sequence of events delivered to a surface with the
    ['loadstart'] handler attached, the handlers call [close] once for
    each ['loadstart'] at an address that starts with the prefix and has a
    query string, and at no other event; the ['loadstart'] handler stays
    attached, so a second such event closes the surface again. *)
Theorem deliver_closes_per_redirect (flow : Flow)
    (events : list BrowserEvent) :
  listening "loadstart" (calls flow) = true ->
  listening "loadstart" (calls (deliver flow events)) = true
  /\ occurrences Close (calls (deliver flow events)) =
       occurrences Close (calls flow)
       + length (List.filter redirect events).
Proof.
  revert flow. induction events as [|event events IH]; intros flow Hattached.
  - cbn. split; [exact Hattached | lia].
  - rewrite deliver_cons.
    assert (Hstays :
      listening "loadstart" (calls (fst (dispatch flow event))) = true).
    { rewrite dispatch_calls, listening_app.
      destruct (_ && _); cbn; exact Hattached. }
    destruct (IH _ Hstays) as [Hlistening Hcount].
    split; [exact Hlistening|]. rewrite Hcount, dispatch_calls.
    rewrite occurrences_app. cbn [List.filter].
    destruct event as [| |address];
      cbn [redirect eventName andb]; rewrite ?andb_false_r;
      try (rewrite occurrences_nil; lia).
    rewrite Hattached. cbn [andb].
    destruct (String.eqb _ _ && _);
      rewrite ?occurrences_Close_detached, ?occurrences_nil; cbn [length];
      lia.
Qed.

(** X17: once a ['loadstart'] at an address that starts with the prefix
    and has a query string is delivered, the ['exit'] and ['loaderror']
    handlers are detached for good: whatever is delivered later, the flow
    is as if the later ['exit'] and ['loaderror'] events had not
    occurred. *)
Theorem deliver_after_redirect (flow : Flow) (address : string)
    (events : list BrowserEvent) :
  listening "loadstart" (calls flow) = true ->
  redirect (LoadStart address) = true ->
  listening "exit" (calls (deliver flow (LoadStart address :: events))) = false
  /\ listening "loaderror"
       (calls (deliver flow (LoadStart address :: events))) = false
  /\ deliver flow (LoadStart address :: events) =
     deliver flow
       (LoadStart address ::
        List.filter
          (fun event =>
             match event with LoadStart _ => true | _ => false end)
          events).
Proof.
  intros Hattached Hredirect. rewrite !deliver_cons.
  set (after := fst (dispatch flow (LoadStart address))).
  assert (Hexit : listening "exit" (calls after) = false).
  { subst after. rewrite dispatch_calls. cbn [eventName].
    rewrite Hattached, Hredirect, listening_app. reflexivity. }
  assert (Hloaderror : listening "loaderror" (calls after) = false).
  { subst after. rewrite dispatch_calls. cbn [eventName].
    rewrite Hattached, Hredirect, listening_app. reflexivity. }
  clearbody after. clear Hattached Hredirect.
  revert after Hexit Hloaderror.
  induction events as [|event events IH]; intros after Hexit Hloaderror.
  - by cbn.
  - assert (Hkept :
      listening "exit" (calls (fst (dispatch after event))) = false
      /\ listening "loaderror" (calls (fst (dispatch after event))) = false).
    { rewrite dispatch_calls, !listening_app.
      destruct (_ && _); cbn; by rewrite ?Hexit, ?Hloaderror. }
    destruct Hkept as [Hexit' Hloaderror'].
    destruct (IH _ Hexit' Hloaderror') as (IH1 & IH2 & IH3).
    rewrite !deliver_cons. split; [exact IH1|]. split; [exact IH2|].
    destruct event as [| |later]; cbn [List.filter].
    + rewrite IH3. unfold dispatch. cbn [eventName]. by rewrite Hexit.
    + rewrite IH3. unfold dispatch. cbn [eventName]. by rewrite Hloaderror.
    + rewrite deliver_cons. exact IH3.
Qed.

(** X18: when the first ['loadstart'] is at another address, for one at
    the page the surface was opened with, the promise is rejected with
    ['Unexpected url in API response']; the redirect that follows still
    detaches the listeners and closes the surface, and the promise stays
    rejected. *)
Theorem deliver_first_page_rejects (calls : list BrowserCall)
    (first redirected : string) :
  listening "loadstart" calls = true ->
  (~ exists rest, first = "http://auth.ionic.io" +:+ rest) ->
  redirect (LoadStart redirected) = true ->
  deliver (mk Pending calls) [LoadStart first; LoadStart redirected] =
  mk (Rejected (MkError "Unexpected url in API response"))
     (calls ++ detached).
Proof.
  intros Hattached Hfirst Hredirect.
  unfold deliver. cbn [fold_left]. unfold dispatch at 2.
  cbn [eventName AuthType.calls]. rewrite Hattached.
  rewrite (onLoadStart_unexpected (mk Pending calls) first).
  - cbn [fst]. unfold dispatch. cbn [eventName AuthType.calls].
    rewrite Hattached.
    apply redirect_spec in Hredirect as [Haccepted [queryString Hquery]].
    rewrite (onLoadStart_accepted _ _ Haccepted), Hquery. reflexivity.
  - intros Hprefix. apply Hfirst, accepted_iff. by apply String.eqb_eq.
Qed.

End Events.

Section EventsWitnesses.

Import AuthType InAppBrowserFlow Inputs MoreInputs.

Lemma deliver_closes_per_redirect_witness :
  occurrences Close (calls (deliver opened twoRedirects)) =
  occurrences Close (calls opened) + 2.
Proof.
  apply (deliver_closes_per_redirect opened twoRedirects). reflexivity.
Defined.

Lemma deliver_after_redirect_witness :
  listening "exit"
    (calls (deliver opened
              [LoadStart "http://auth.ionic.io/?token=a"; Exit])) = false.
Proof.
  apply (deliver_after_redirect opened "http://auth.ionic.io/?token=a"
           [Exit]); reflexivity.
Defined.

Lemma deliver_first_page_rejects_witness :
  deliver (mk Pending (calls opened))
    [LoadStart "https://api.ionic.io/auth/twitter";
     LoadStart "http://auth.ionic.io/?token=xyz"] =
  mk (Rejected (MkError "Unexpected url in API response"))
     (calls opened ++ detached).
Proof.
  apply deliver_first_page_rejects; [reflexivity | | reflexivity].
  intros [rest Hrest]. discriminate Hrest.
Defined.

End EventsWitnesses.

(** ** The browser flow: the request *)

Section FlowRequest.

Context {Data : Type}.

Import InAppBrowserFlow.

(** X19: without the plugin ([window], [window.cordova] or
    [window.cordova.InAppBrowser] missing) the flow hands no request to
    the HTTP client and its promise is rejected with ['InAppBrowser plugin
    missing'].  With the plugin, each of the seven provider classes hands
    over one request: a POST to [/auth/login/] followed by its provider
    name, with the app id of the config, the address of the current page
    as callback and the data of the caller; the promise is pending. *)
Theorem provider_requests (config : gmap string string) (window : js Window)
    (data : Data) :
  (pluginMissing window = true ->
   forall options,
     inAppBrowserFlow config window options data =
     ([], Rejected (MkError "InAppBrowser plugin missing")))
  /\ (forall w,
        window = Val w ->
        pluginMissing window = false ->
        let posted name :=
          ([request "POST" ("/auth/login/" +:+ name)
              (IConfig.get config "app_id") (Val (href w)) data],
           Pending) in
        CustomAuth config window data = posted "custom"
        /\ TwitterAuth config window data = posted "twitter"
        /\ FacebookAuth config window data = posted "facebook"
        /\ GithubAuth config window data = posted "github"
        /\ GoogleAuth config window data = posted "google"
        /\ InstagramAuth config window data = posted "instagram"
        /\ LinkedInAuth config window data = posted "linkedin").
Proof.
  split.
  - intros Hmissing options. unfold inAppBrowserFlow.
    rewrite Hmissing. by destruct window.
  - intros w -> Hplugin posted.
    unfold CustomAuth, TwitterAuth, FacebookAuth, GithubAuth, GoogleAuth,
      InstagramAuth, LinkedInAuth, inAppBrowserFlow.
    rewrite Hplugin. repeat split.
Qed.

End FlowRequest.

Section FlowRequestWitness.

Import InAppBrowserFlow MoreInputs.

Lemma provider_requests_witness :
  TwitterAuth ∅ (Val withPlugin) tt =
  ([request "POST" "/auth/login/twitter" Undefined
      (Val "http://localhost/") tt],
   Pending).
Proof.
  destruct (provider_requests ∅ (Val withPlugin) tt) as [_ Hposted].
  destruct (Hposted withPlugin eq_refl eq_refl) as (_ & Htwitter & _).
  exact Htwitter.
Defined.

End FlowRequestWitness.

(** ** Cordova *)

Section CordovaAvailable.

Import Cordova.

Lemma split_pieces_nil (c : ascii) (s : string) :
  snd (split c s) = [] -> contains c s = false.
Proof.
  induction s as [|a s IH]; [reflexivity|].
  cbn. destruct (split c s) as [piece pieces].
  destruct (Ascii.eqb a c); [discriminate|]. exact IH.
Qed.

Lemma last_nonempty {A} (l : list A) (d d' : A) :
  l <> [] -> List.last l d = List.last l d'.
Proof.
  induction l as [|x l IH]; [done|]. intros _.
  destruct l as [|y l]; [reflexivity|]. cbn in *. by apply IH.
Qed.

Lemma last_cons_default {A} (l : list A) (x d : A) :
  List.last (x :: l) d = List.last l x.
Proof.
  revert x d. induction l as [|y l IH]; intros x d; [reflexivity|].
  change (List.last (y :: l) d = List.last (y :: l) x).
  by rewrite !IH.
Qed.

Lemma lastPart_cons (c a : ascii) (s : string) :
  lastPart (split c (String a s)) =
  if Ascii.eqb a c then lastPart (split c s)
  else if contains c s then lastPart (split c s)
  else String a s.
Proof.
  unfold lastPart. cbn [split].
  destruct (split c s) as [piece pieces] eqn:Hsplit.
  destruct (Ascii.eqb a c); cbn [fst snd]; [apply last_cons_default|].
  destruct (contains c s) eqn:Hcontains.
  - apply last_nonempty. intros ->.
    pose proof (split_pieces_nil c s) as Hnil. rewrite Hsplit in Hnil.
    rewrite Hnil in Hcontains; [discriminate | reflexivity].
  - rewrite (split_without _ _ Hcontains) in Hsplit.
    by injection Hsplit as <- <-.
Qed.

Lemma lastPart_iff (c : ascii) (s name : string) :
  contains c name = false ->
  lastPart (split c s) = name <->
  s = name \/ exists dir, s = dir +:+ String c name.
Proof.
  intros Hname. induction s as [|a s IH].
  - cbn. split.
    + intros <-. by left.
    + intros [<-|[dir Hdir]]; [reflexivity|].
      destruct dir; discriminate Hdir.
  - rewrite lastPart_cons. destruct (Ascii.eqb_spec a c) as [->|Hac].
    + rewrite IH. split.
      * intros [->|[dir ->]]; right.
        -- by exists "".
        -- by exists (String c dir).
      * intros [Hs|[dir Hdir]].
        -- rewrite <- Hs in Hname. cbn in Hname.
           by rewrite Ascii.eqb_refl in Hname.
        -- destruct dir as [|a' dir].
           ++ injection Hdir as ->. by left.
           ++ injection Hdir as -> ->. right. by exists dir.
    + destruct (contains c s) eqn:Hcontains.
      * rewrite IH. split.
        -- intros [->|[dir ->]]; [congruence|].
           right. by exists (String a dir).
        -- intros [Hs|[dir Hdir]].
           ++ rewrite <- Hs in Hname. cbn in Hname.
              apply orb_false_iff in Hname as [_ Hname]. congruence.
           ++ destruct dir as [|a' dir].
              ** injection Hdir as -> _. done.
              ** injection Hdir as -> ->. right. by exists dir.
      * split.
        -- intros <-. by left.
        -- intros [<-|[dir Hdir]]; [reflexivity|].
           assert (contains c (String a s) = true) as Hin.
           { rewrite Hdir, contains_app. cbn.
             by rewrite Ascii.eqb_refl, orb_true_r. }
           cbn in Hin. rewrite Hcontains, orb_false_r in Hin.
           apply Ascii.eqb_eq in Hin. done.
Qed.

Lemma included_iff (scripts : list (js string)) :
  included scripts = true <->
  exists src,
    Val src ∈ scripts
    /\ (src = "cordova.js" \/ exists dir, src = dir +:+ "/cordova.js").
Proof.
  induction scripts as [|script scripts IH].
  - split; [discriminate | intros (src & Hin & _); by apply elem_of_nil in Hin].
  - cbn [included].
    destruct (truthy script
              && String.eqb (lastPart (split "/" (toString script)))
                   "cordova.js") eqn:Hscript.
    + split; [intros _|done].
      apply andb_true_iff in Hscript as [Htruthy Hlast].
      destruct script as [| |src]; try discriminate.
      exists src. split; [left|].
      apply String.eqb_eq in Hlast. by apply (lastPart_iff "/") in Hlast.
    + rewrite IH. split.
      * intros (src & Hin & Hsrc). exists src. split; [by right | done].
      * intros (src & Hin & Hsrc). exists src. split; [|done].
        apply elem_of_cons in Hin as [<-|Hin]; [|done].
        exfalso. apply andb_false_iff in Hscript as [Hfalsy|Hlast].
        -- apply (truthy_string_false src) in Hfalsy.
           destruct Hsrc as [->|[dir ->]]; [done|].
           destruct dir; discriminate Hfalsy.
        -- cbn in Hlast. apply String.eqb_neq in Hlast. apply Hlast.
           by apply (lastPart_iff "/").
Qed.

(** X20: [isAvailable] returns true exactly when the global [cordova] is
    defined or the document has a script whose [src] is [cordova.js] or
    ends with [/cordova.js]; a [src] with anything after [cordova.js], or
    with other letters before it in the last part, does not count.  It
    changes nothing but the log, and nothing at all without a logger. *)
Theorem isAvailable_iff (this : t) (page : Page) :
  (snd (isAvailable this page) = true <->
   cordova page = true
   \/ exists src,
        Val src ∈ scripts (document this)
        /\ (src = "cordova.js" \/ exists dir, src = dir +:+ "/cordova.js"))
  /\ document (fst (isAvailable this page)) = document this
  /\ deviceType (fst (isAvailable this page)) = deviceType this
  /\ (logger this = false -> fst (isAvailable this page) = this).
Proof.
  unfold isAvailable, info.
  destruct (logger this) eqn:Hlogger; cbn [logger document];
    destruct (cordova page);
    try destruct (included (scripts (document this))) eqn:Hincluded;
    cbn [fst snd document deviceType logger]; rewrite ?Hlogger;
    cbn [fst snd document deviceType logger];
    repeat split; try done; try (intros _; by left);
    try (intros _; right; by apply included_iff);
    try (intros [?|Hsrc]; [done|]; apply included_iff in Hsrc; congruence);
    try by destruct this.
Qed.

Lemma isAvailable_iff_witness :
  fst (isAvailable
         (mk "android" false []
             {| headScripts := []; laterScripts := [] |})
         {| cordova := false; href := ""; search := "" |})
  = mk "android" false [] {| headScripts := []; laterScripts := [] |}.
Proof. by apply isAvailable_iff. Defined.

End CordovaAvailable.

Section CordovaLoad.

Import Cordova.

Variable decodeURI : string -> completion string.

Lemma included_app (scripts1 scripts2 : list (js string)) :
  included (scripts1 ++ scripts2) = included scripts1 || included scripts2.
Proof.
  induction scripts1 as [|script scripts1 IH]; [reflexivity|].
  cbn [app included]. by destruct (_ && _).
Qed.

Lemma info_document (this : t) (entry : LogEntry) :
  document (info this entry) = document this.
Proof. unfold info. by destruct (logger this). Qed.

Lemma info_deviceType (this : t) (entry : LogEntry) :
  deviceType (info this entry) = deviceType this.
Proof. unfold info. by destruct (logger this). Qed.

Lemma info_logger (this : t) (entry : LogEntry) :
  logger (info this entry) = logger this.
Proof. unfold info. by destruct (logger this) eqn:H. Qed.

Lemma isAvailable_snd (this : t) (page : Page) :
  snd (isAvailable this page) =
  cordova page || included (scripts (document this)).
Proof.
  unfold isAvailable. rewrite info_document.
  destruct (cordova page); [reflexivity|].
  by destruct (included _).
Qed.

Lemma isAvailable_document (this : t) (page : Page) :
  document (fst (isAvailable this page)) = document this.
Proof.
  unfold isAvailable. rewrite info_document.
  destruct (cordova page); cbn [fst]; [by rewrite !info_document|].
  destruct (included _); cbn [fst]; by rewrite ?info_document.
Qed.

Lemma isAvailable_deviceType (this : t) (page : Page) :
  deviceType (fst (isAvailable this page)) = deviceType this.
Proof.
  unfold isAvailable. rewrite info_document.
  destruct (cordova page); cbn [fst]; [by rewrite !info_deviceType|].
  destruct (included _); cbn [fst]; by rewrite ?info_deviceType.
Qed.

Lemma source_plain (this : t) (page : Page) :
  deviceType this <> "ipad" ->
  deviceType this <> "iphone" ->
  source decodeURI this page = (this, plainSource this page).
Proof.
  intros Hipad%String.eqb_neq Hiphone%String.eqb_neq.
  unfold source, plainSource. rewrite Hipad, Hiphone.
  destruct (String.eqb (deviceType this) "android"); [|reflexivity].
  by destruct (String.eqb (slice0 4 (href page)) "file").
Qed.

Lemma load_available (this : t) (page : Page) :
  snd (isAvailable this page) = true ->
  load decodeURI this page = fst (isAvailable this page).
Proof.
  unfold load. destruct (isAvailable this page) as [this' available].
  cbn [snd fst]. by intros ->.
Qed.

Lemma load_document (this : t) (page : Page) :
  snd (isAvailable this page) = false ->
  document (load decodeURI this page) =
  {| headScripts :=
       headScripts (document (fst (source decodeURI
                                            (fst (isAvailable this page))
                                            page)))
       ++ [Val (snd (source decodeURI (fst (isAvailable this page)) page))];
     laterScripts :=
       laterScripts (document (fst (source decodeURI
                                             (fst (isAvailable this page))
                                             page))) |}.
Proof.
  unfold load. destruct (isAvailable this page) as [this' available].
  cbn [snd fst]. intros ->. cbn [negb].
  destruct (source decodeURI this' page) as [this'' cordovaSrc].
  by rewrite info_document.
Qed.

(** X21: [load] appends no script when [isAvailable] holds.  Otherwise, on
    a device that is neither an ipad nor an iphone, it appends to [head]
    one script, with [src] [file:///android_asset/www/cordova.js] on
    android when the address of the page starts with [file] and
    [cordova.js] in every other case; after that [isAvailable] holds, so a
    second [load] leaves the document as the first left it. *)
Theorem load_injects_once (this : t) (page : Page) :
  (snd (isAvailable this page) = true ->
   document (load decodeURI this page) = document this)
  /\ (deviceType this <> "ipad" ->
      deviceType this <> "iphone" ->
      (snd (isAvailable this page) = false ->
       document (load decodeURI this page) =
       {| headScripts :=
            headScripts (document this) ++ [Val (plainSource this page)];
          laterScripts := laterScripts (document this) |})
      /\ snd (isAvailable (load decodeURI this page) page) = true
      /\ document (load decodeURI (load decodeURI this page) page) =
         document (load decodeURI this page)).
Proof.
  assert (Havailable :
    snd (isAvailable this page) = true ->
    document (load decodeURI this page) = document this).
  { intros Htrue. by rewrite load_available, isAvailable_document. }
  split; [exact Havailable|]. intros Hipad Hiphone.
  assert (Hinjected :
    snd (isAvailable this page) = false ->
    document (load decodeURI this page) =
    {| headScripts :=
         headScripts (document this) ++ [Val (plainSource this page)];
       laterScripts := laterScripts (document this) |}).
  { intros Hfalse. rewrite (load_document _ _ Hfalse).
    rewrite source_plain by (by rewrite isAvailable_deviceType).
    cbn [fst snd]. rewrite isAvailable_document.
    unfold plainSource. by rewrite isAvailable_deviceType. }
  assert (Hthen : snd (isAvailable (load decodeURI this page) page) = true).
  { destruct (snd (isAvailable this page)) eqn:Hnow.
    - rewrite isAvailable_snd, (Havailable eq_refl).
      by rewrite <- isAvailable_snd.
    - rewrite isAvailable_snd, (Hinjected eq_refl).
      unfold scripts. cbn [headScripts laterScripts].
      rewrite !included_app. cbn [included].
      assert (truthy (Val (plainSource this page))
              && String.eqb
                   (lastPart
                      (split "/" (toString (Val (plainSource this page)))))
                   "cordova.js" = true) as ->.
      { unfold plainSource.
        destruct (String.eqb (deviceType this) "android"
                  && String.eqb (slice0 4 (href page)) "file");
          reflexivity. }
      by rewrite !orb_true_r. }
  split; [exact Hinjected|]. split; [exact Hthen|].
  by rewrite (load_available _ _ Hthen), isAvailable_document.
Qed.

End CordovaLoad.

Section CordovaResource.

Import Cordova.

Variable decodeURI : string -> completion string.

Lemma lineTerminator_other (c : ascii) (s : string) :
  Ascii.eqb c "010" = false ->
  Ascii.eqb c "013" = false ->
  Ascii.eqb c "226" = false ->
  lineTerminator (String c s) = false.
Proof.
  destruct c as [[] [] [] [] [] [] [] []]; cbn; intros; try reflexivity;
    discriminate.
Qed.

Lemma group1_plain (r rest : string) :
  plain r = true ->
  rest = "" \/ (exists more, rest = "&" +:+ more)
  \/ (exists more, rest = "#" +:+ more) ->
  group1 (r +:+ rest) = Some r.
Proof.
  intros Hplain Hrest. induction r as [|c r IH].
  - rewrite append_nil_l.
    by destruct Hrest as [->|[[more ->]|[more ->]]].
  - cbn [plain] in Hplain.
    apply andb_true_iff in Hplain as [Hc Hplain].
    apply negb_true_iff in Hc.
    repeat (apply orb_false_iff in Hc as [Hc ?]).
    rewrite append_cons. cbn [group1].
    rewrite Hc, H2. cbn [orb].
    rewrite lineTerminator_other by done.
    by rewrite (IH Hplain).
Qed.

Lemma resource_unfold (search : string) :
  resource search =
  match
    match afterLiteral "cordova_js_bootstrap_resource=" search with
    | Some rest => group1 rest
    | None => None
    end
  with
  | Some found => Some found
  | None =>
      match search with
      | EmptyString => None
      | String _ search' => resource search'
      end
  end.
Proof. by destruct search. Qed.

Lemma resource_named (r rest : string) :
  plain r = true ->
  rest = "" \/ (exists more, rest = "&" +:+ more)
  \/ (exists more, rest = "#" +:+ more) ->
  resource ("?cordova_js_bootstrap_resource=" +:+ r +:+ rest) = Some r
  /\ resource ("?CORDOVA_JS_BOOTSTRAP_RESOURCE=" +:+ r +:+ rest) = Some r.
Proof.
  intros Hplain Hrest. split.
  - rewrite resource_unfold.
    change (afterLiteral "cordova_js_bootstrap_resource="
              ("?cordova_js_bootstrap_resource=" +:+ r +:+ rest))
      with (@None string).
    change ("?cordova_js_bootstrap_resource=" +:+ r +:+ rest)
      with (String "?"
              ("cordova_js_bootstrap_resource=" +:+ r +:+ rest)).
    cbv iota beta. rewrite resource_unfold.
    change (afterLiteral "cordova_js_bootstrap_resource="
              ("cordova_js_bootstrap_resource=" +:+ r +:+ rest))
      with (Some (r +:+ rest)).
    cbv iota beta. rewrite (group1_plain r rest Hplain Hrest). reflexivity.
  - rewrite resource_unfold.
    change (afterLiteral "cordova_js_bootstrap_resource="
              ("?CORDOVA_JS_BOOTSTRAP_RESOURCE=" +:+ r +:+ rest))
      with (@None string).
    change ("?CORDOVA_JS_BOOTSTRAP_RESOURCE=" +:+ r +:+ rest)
      with (String "?"
              ("CORDOVA_JS_BOOTSTRAP_RESOURCE=" +:+ r +:+ rest)).
    cbv iota beta. rewrite resource_unfold.
    change (afterLiteral "cordova_js_bootstrap_resource="
              ("CORDOVA_JS_BOOTSTRAP_RESOURCE=" +:+ r +:+ rest))
      with (Some (r +:+ rest)).
    cbv iota beta. rewrite (group1_plain r rest Hplain Hrest). reflexivity.
Qed.

(** X22: on an ipad or an iphone, when the query of the page is
    [?cordova_js_bootstrap_resource=R], in small or in capital letters,
    alone or followed by ['&'] or ['#'] and more, and R has no ['&'],
    ['#'] or line end, the [src] of the script is [decodeURI(R)]; when
    [decodeURI] throws, the [src] is [cordova.js] and a logger gets two
    entries, the second with the error. *)
Theorem source_named_resource (this : t) (page : Page) (r rest : string) :
  deviceType this = "ipad" \/ deviceType this = "iphone" ->
  plain r = true ->
  rest = "" \/ (exists more, rest = "&" +:+ more)
  \/ (exists more, rest = "#" +:+ more) ->
  search page = "?cordova_js_bootstrap_resource=" +:+ r +:+ rest
  \/ search page = "?CORDOVA_JS_BOOTSTRAP_RESOURCE=" +:+ r +:+ rest ->
  match decodeURI r with
  | Return decoded => source decodeURI this page = (this, decoded)
  | Throw e =>
      snd (source decodeURI this page) = "cordova.js"
      /\ log (fst (source decodeURI this page)) =
         log this ++
         (if logger this
          then [Info ("Ionic Cordova: could not find "
                      +:+ "cordova_js_bootstrap_resource query param");
                InfoError "Ionic Cordova:" e]
          else [])
  end.
Proof.
  intros Hdevice Hplain Hrest Hsearch.
  assert (Hresource : resource (search page) = Some r).
  { destruct (resource_named r rest Hplain Hrest) as [Hsmall Hcapital].
    destruct Hsearch as [Hsearch|Hsearch]; rewrite Hsearch;
      [exact Hsmall | exact Hcapital]. }
  assert (Hsource :
    source decodeURI this page =
    match decodeURI r with
    | Return decoded => (this, decoded)
    | Throw e =>
        (info
           (info this
              (Info ("Ionic Cordova: could not find "
                     +:+ "cordova_js_bootstrap_resource query param")))
           (InfoError "Ionic Cordova:" e),
         "cordova.js")
    end).
  { unfold source. rewrite Hresource.
    destruct Hdevice as [Hdevice|Hdevice]; rewrite Hdevice; reflexivity. }
  rewrite Hsource. destruct (decodeURI r) as [decoded|e]; [reflexivity|].
  split; [reflexivity|]. cbn [fst]. unfold info.
  destruct (logger this) eqn:Hlogger; cbn [logger log]; rewrite ?Hlogger;
    cbn [log]; by rewrite <- ?app_assoc, ?app_nil_r.
Qed.

End CordovaResource.

Section CordovaWitnesses.

Import Cordova MoreInputs.

Lemma load_injects_once_witness :
  document (load unescaped androidApp filePage) =
  {| headScripts :=
       [Val "js/app.js"; Val "file:///android_asset/www/cordova.js"];
     laterScripts := [] |}
  /\ document (load unescaped (load unescaped androidApp filePage) filePage)
     = document (load unescaped androidApp filePage).
Proof.
  destruct (load_injects_once unescaped androidApp filePage)
    as [_ Hplain].
  destruct Hplain as (Hinjected & _ & Htwice); [discriminate..|].
  split; [apply Hinjected; reflexivity | exact Htwice].
Defined.

Lemma source_named_resource_witness :
  source unescaped ipadApp resourcePage = (ipadApp, "lib/cordova.js").
Proof.
  apply (source_named_resource unescaped ipadApp resourcePage
           "lib/cordova.js" "&x=1").
  - by left.
  - reflexivity.
  - right. left. by exists "x=1".
  - by left.
Defined.

End CordovaWitnesses.

Section CordovaBootstrap.

Import Cordova.

Context {Args : Type}.

Lemma replicate_snoc {A} (n : nat) (x : A) :
  replicate n x ++ [x] = replicate (S n) x.
Proof. induction n as [|n IH]; [reflexivity|]. cbn. by rewrite IH. Qed.

Lemma fold_pause_resume (event : string) (args : Args) (this : Bridge Args) :
  fold_left
    (fun this listener =>
       if listens listener event then call this listener args else this)
    (map Forward events) this =
  if String.eqb event "pause" then
    bridge (listeners this) (emitted this ++ [("cordova:pause", args)])
  else if String.eqb event "resume" then
    bridge (listeners this) (emitted this ++ [("cordova:resume", args)])
  else this.
Proof.
  cbn [map events fold_left listens].
  destruct (String.eqb_spec event "pause") as [->|Hpause].
  - change (String.eqb "pause" "resume") with false. reflexivity.
  - destruct (String.eqb event "resume"); reflexivity.
Qed.

Lemma fold_forwards (event : string) (args : Args) (k : nat)
    (this : Bridge Args) :
  fold_left
    (fun this listener =>
       if listens listener event then call this listener args else this)
    (forwards k) this =
  if String.eqb event "pause" then
    bridge (listeners this)
           (emitted this ++ replicate k ("cordova:pause", args))
  else if String.eqb event "resume" then
    bridge (listeners this)
           (emitted this ++ replicate k ("cordova:resume", args))
  else this.
Proof.
  induction k as [|k IH].
  - cbn. destruct this. rewrite app_nil_r.
    by destruct (String.eqb event "pause"), (String.eqb event "resume").
  - cbn [forwards]. rewrite fold_left_app, IH, fold_pause_resume.
    destruct (String.eqb event "pause");
      [|destruct (String.eqb event "resume")];
      cbn [listeners emitted];
      by rewrite <- ?app_assoc, ?replicate_snoc.
Qed.

Lemma fire_forwarding (k : nat) (this : Bridge Args) (event : string)
    (args : Args) :
  listeners this = OnDeviceReady :: forwards k ->
  fire this event args =
  if String.eqb event "deviceready" then
    bridge (OnDeviceReady :: forwards (S k))
           (emitted this ++ [("cordova:deviceready", args)])
  else if String.eqb event "pause" then
    bridge (listeners this)
           (emitted this ++ replicate k ("cordova:pause", args))
  else if String.eqb event "resume" then
    bridge (listeners this)
           (emitted this ++ replicate k ("cordova:resume", args))
  else this.
Proof.
  intros Hlisteners. unfold fire. rewrite Hlisteners.
  cbn [fold_left listens]. rewrite fold_forwards.
  destruct (String.eqb_spec event "deviceready") as [->|Hready].
  - change (String.eqb "deviceready" "pause") with false.
    change (String.eqb "deviceready" "resume") with false.
    cbn iota. cbn [call]. by rewrite Hlisteners.
  - by rewrite Hlisteners.
Qed.

Lemma fireAll_forwarding (fired : list (string * Args)) (k : nat)
    (this : Bridge Args) :
  forwarding k this ->
  forwarding (k + readyCount fired) (fireAll this fired).
Proof.
  revert k this. induction fired as [|[event args] fired IH];
    intros k this [Hlisteners Hquiet].
  - unfold readyCount. cbn. rewrite Nat.add_0_r. by split.
  - unfold fireAll. cbn [fold_left fst snd].
    rewrite (fire_forwarding k this event args Hlisteners).
    unfold readyCount. cbn [List.filter fst].
    destruct (String.eqb event "deviceready").
    + cbn [length]. rewrite Nat.add_succ_r. apply (IH (S k)).
      split; [reflexivity | discriminate].
    + apply (IH k).
      destruct (String.eqb event "pause");
        [|destruct (String.eqb event "resume")].
      * split; [exact Hlisteners|]. intros ->. cbn.
        rewrite app_nil_r. by apply Hquiet.
      * split; [exact Hlisteners|]. intros ->. cbn.
        rewrite app_nil_r. by apply Hquiet.
      * by split.
Qed.

(** X23: after [bootstrap], whatever events [document] dispatches:
    nothing is emitted before the first ['deviceready']; each
    ['deviceready'] emits one ['cordova:deviceready'] and adds listeners
    for ['pause'] and ['resume'] again, so a ['pause'] or a ['resume'] is
    emitted, as ['cordova:pause'] or ['cordova:resume'] with its
    arguments, as many times as ['deviceready'] has been dispatched
    before; an event of another name changes nothing. *)
Theorem bootstrap_forwards_after_deviceready
    (decodeURI : string -> completion string) (this : t) (page : Page)
    (fired : list (string * Args)) (args : Args) :
  let after := fireAll (snd (bootstrap decodeURI this page)) fired in
  (readyCount fired = 0 -> emitted after = [])
  /\ emitted (fire after "deviceready" args) =
       emitted after ++ [("cordova:deviceready", args)]
  /\ emitted (fire after "pause" args) =
       emitted after ++ replicate (readyCount fired) ("cordova:pause", args)
  /\ emitted (fire after "resume" args) =
       emitted after ++ replicate (readyCount fired) ("cordova:resume", args)
  /\ (forall event,
        event <> "deviceready" -> event <> "pause" -> event <> "resume" ->
        fire after event args = after).
Proof.
  intros after.
  destruct (fireAll_forwarding fired 0 (bridge [OnDeviceReady] []))
    as [Hlisteners Hquiet]; [by split|].
  fold after in Hlisteners, Hquiet. cbn [Nat.add] in Hlisteners, Hquiet.
  split; [exact Hquiet|].
  repeat split.
  - by rewrite (fire_forwarding _ _ _ _ Hlisteners).
  - by rewrite (fire_forwarding _ _ _ _ Hlisteners).
  - by rewrite (fire_forwarding _ _ _ _ Hlisteners).
  - intros event Hready%String.eqb_neq Hpause%String.eqb_neq
      Hresume%String.eqb_neq.
    by rewrite (fire_forwarding _ _ _ _ Hlisteners), Hready, Hpause, Hresume.
Qed.

End CordovaBootstrap.

Section CordovaBootstrapWitness.

Import Cordova MoreInputs.

Lemma bootstrap_forwards_after_deviceready_witness :
  emitted
    (fireAll (snd (bootstrap unescaped androidApp filePage))
       [("pause", 1); ("resume", 2)]) = [].
Proof.
  destruct (bootstrap_forwards_after_deviceready unescaped androidApp
              filePage [("pause", 1); ("resume", 2)] 0) as [Hquiet _].
  apply Hquiet. reflexivity.
Defined.

End CordovaBootstrapWitness.
